(** * tr-simple: chunk / process / rebuild

    A shallow embedding of the three scripts of the repository
    ([chunk.py], [process.py], [rebuild.py]) and the properties their
    specification states about them.

    Python values are modelled as follows.
    - [str] values are lists of characters; only equality with the four
      boundary characters is ever inspected by the code.
    - Python integers are [Z]; [len(x)] is [Z.of_nat (length x)].
    - Slice and [rfind] bounds are normalised the way Python does it
      (negative bounds count from the end, everything is clamped).
    - [int(chunk_size * 0.5)] is truncation of the half towards zero,
      [Z.quot chunk_size 2].  This is what Python computes as long as
      the chunk size is between -2^53 and 2^53, where the float product
      is exact; beyond that the product is rounded, and from about
      1.8e308 on the conversion to float raises OverflowError, neither
      of which is modelled.  For a positive chunk size the half is
      evaluated only on a text longer than the chunk size.
    - A [while] loop is a fuel-bounded recursion returning [None] when the
      fuel runs out. *)

From Stdlib Require Import ZArith Ascii String List Lia.
From stdpp Require Import base list sorting strings gmap.

Local Open Scope Z_scope.

(** ** Python strings *)

Definition str := list ascii.

Definition lit (s : string) : str := list_ascii_of_string s.

Definition len {A : Type} (l : list A) : Z := Z.of_nat (length l).

(** Normalisation of one slice bound against a sequence of length [n]. *)
Definition clamp_index (n i : Z) : Z :=
  if i <? 0 then Z.max 0 (i + n) else Z.min i n.

(** [text[lo:hi]] *)
Definition slice (text : str) (lo hi : Z) : str :=
  let lo' := clamp_index (len text) lo in
  let hi' := clamp_index (len text) hi in
  take (Z.to_nat (hi' - lo')) (drop (Z.to_nat lo') text).

(** [text[lo:]] *)
Definition slice_from (text : str) (lo : Z) : str :=
  drop (Z.to_nat (clamp_index (len text) lo)) text.

(** [text[p] == c] for an in-range, non-negative position [p]. *)
Definition char_is (text : str) (p : Z) (c : ascii) : bool :=
  match text !! Z.to_nat p with
  | Some x => Ascii.eqb x c
  | None => false
  end.

(** Backward scan of the [n] positions [lo, lo+1, ..., lo+n-1], highest
    first. *)
Fixpoint rscan (text : str) (c : ascii) (lo : Z) (n : nat) : Z :=
  match n with
  | O => -1
  | S k =>
      if char_is text (lo + Z.of_nat k) c then lo + Z.of_nat k
      else rscan text c lo k
  end.

(** [text.rfind(c, lo, hi)] for a one-character needle. *)
Definition rfind (text : str) (c : ascii) (lo hi : Z) : Z :=
  let lo' := clamp_index (len text) lo in
  let hi' := clamp_index (len text) hi in
  rscan text c lo' (Z.to_nat (hi' - lo')).

(** ** The persisted job

    The JSON document written by [chunk.py] and rewritten by [process.py].
    The scripts only ever write the three status strings ['pending'],
    ['done'] and ['error'], which are the constructors of [status].  The
    ['error'] key is absent from a freshly created chunk, hence the nested
    option: [None] is a missing key, [Some None] is JSON [null]. *)

Inductive status := Pending | Done | Error.

Global Instance status_eq_dec : EqDecision status.
Proof. solve_decision. Defined.

Record chunk := Chunk_ {
  index : Z;
  text : str;
  status_of : status;
  result : option str;
  error : option (option str)
}.

Record meta := Meta {
  book_id : str;
  chunk_size : Z;
  total_chunks : Z
}.

Record data := Data {
  meta_of : meta;
  chunks : list chunk
}.

(** A file is either plain text or a JSON job; [json.dump] followed by
    [json.load] is taken to be the identity on [data].  The characters
    of a serialised job are not represented: reading a job as text, or
    parsing a text as a job, counts as an uncaught exception. *)
Inductive file := TextFile (s : str) | JsonFile (d : data).

(** Python truthiness of a [str]-or-[None] value. *)
Definition truthy (v : option str) : bool :=
  match v with
  | Some (_ :: _) => true
  | _ => false
  end.

(** [s.startswith(p)] *)
Fixpoint starts_with (p s : str) : bool :=
  match p, s with
  | [], _ => true
  | a :: p', b :: s' => Ascii.eqb a b && starts_with p' s'
  | _ :: _, [] => false
  end.

(** [s.replace(old, new)] for a non-empty [old]: left to right, without
    overlap; [skip] counts the characters of a match still to be dropped. *)
Fixpoint replace_go (skip : nat) (s old new : str) : str :=
  match s with
  | [] => []
  | c :: s' =>
      match skip with
      | S k => replace_go k s' old new
      | O =>
          if starts_with old s
          then new ++ replace_go (length old - 1) s' old new
          else c :: replace_go 0 s' old new
      end
  end.

Definition replace (s old new : str) : str := replace_go 0 s old new.


(** ** chunk.py *)

Module Chunk.

Definition newline : ascii := "010"%char.
Definition period : ascii := "."%char.
Definition comma : ascii := ","%char.
Definition space : ascii := " "%char.

(** [int(chunk_size * 0.5)], for a chunk size between -2^53 and 2^53
    (see the note on the float product at the top of the file). *)
Definition half (chunk_size : Z) : Z := Z.quot chunk_size 2.

(** [search_start = max(start, end - int(chunk_size * 0.5))] *)
Definition search_start (chunk_size start : Z) : Z :=
  Z.max start (start + chunk_size - half chunk_size).

(** Lines 28-52 of [chunk_text]: the break chosen for the chunk that
    starts at [start]. *)
Definition best_break (text : str) (chunk_size start : Z) : Z :=
  let end_ := start + chunk_size in
  let search_start := search_start chunk_size start in
  let newline_pos := rfind text newline search_start end_ in
  if negb (newline_pos =? -1) then newline_pos + 1
  else
    let period_pos := rfind text period search_start end_ in
    if negb (period_pos =? -1) then period_pos + 1
    else
      let comma_pos := rfind text comma search_start end_ in
      if negb (comma_pos =? -1) then comma_pos + 1
      else
        let space_pos := rfind text space search_start end_ in
        if negb (space_pos =? -1) then space_pos + 1
        else end_.

(** The [while start < len(text)] loop; one unit of fuel per loop test. *)
Fixpoint chunk_loop (fuel : nat) (text : str) (chunk_size start : Z)
    (chunks : list str) : option (list str) :=
  match fuel with
  | O => None
  | S fuel' =>
      if start <? len text then
        let end_ := start + chunk_size in
        if end_ >=? len text then Some (chunks ++ [slice_from text start])
        else
          let best_break := best_break text chunk_size start in
          chunk_loop fuel' text chunk_size best_break
            (chunks ++ [slice text start best_break])
      else Some chunks
  end.

(** [chunk_text(text, chunk_size)], run with as many loop tests as a text
    of this length can need when the chunk size is positive. *)
Definition chunk_text (text : str) (chunk_size : Z) : option (list str) :=
  chunk_loop (S (length text)) text chunk_size 0 [].

(** [create_chunked_file(input_file, chunk_size)] over a file system;
    [stem] is [Path(p).stem].  [None] stands for an uncaught exception or
    a run that does not return. *)
Definition create_chunked_file (stem : str -> str) (fs : gmap str file)
    (input_file : str) (chunk_size : Z) : option (str * gmap str file) :=
  match fs !! input_file with
  | Some (TextFile text) =>
      chunks ← chunk_text text chunk_size;
      let base_name := stem input_file in
      let output_file := base_name ++ lit "_chunked.json" in
      let data :=
        Data (Meta base_name chunk_size (len chunks))
             (imap (fun i chunk => Chunk_ (Z.of_nat i) chunk Pending None None)
                   chunks) in
      Some (output_file, <[output_file := JsonFile data]> fs)
  | _ => None
  end.

(** [main()] of chunk.py, after argument parsing: the exit status and
    the file system it leaves. *)
Definition main (stem : str -> str) (fs : gmap str file)
    (input_file : str) (chunk_size : Z) : option (Z * gmap str file) :=
  if bool_decide (fs !! input_file = None) then Some (1, fs)
  else
    r ← create_chunked_file stem fs input_file chunk_size;
    Some (0, r.2).

End Chunk.


(** ** process.py *)

Module Process.

(** The counters of [ProgressTracker]; the clock it reads for the speed
    and ETA display is not modelled. *)
Record tracker := Tracker {
  t_total : Z;
  processed : Z;
  success : Z;
  failed : Z;
  failed_chunks : list Z
}.

Definition tracker_init (total_chunks : Z) : tracker :=
  Tracker total_chunks 0 0 0 [].

Definition update (t : tracker) (ok : bool) (chunk_index : option Z) : tracker :=
  if ok then
    Tracker (t_total t) (processed t + 1) (success t + 1) (failed t)
            (failed_chunks t)
  else
    Tracker (t_total t) (processed t + 1) (success t) (failed t + 1)
            (match chunk_index with
             | Some i => failed_chunks t ++ [i]
             | None => failed_chunks t
             end).

(** What [client.chat.completions.create] does: it returns a message
    whose content is a string or [None], or it raises. *)
Inductive reply := Completion (content : option str) | Raised (msg : str).

(** Console lines (the progress bar, which shows clock readings, is left
    out) and the two kinds of effect on the outside world. *)
Inductive event :=
| MissingKey
| JsonNotFound (json_file : str)
| Starting (json_file : str)
| Found (total pending done_count : Z)
| AllProcessed
| Current (chunk_index : Z) (preview : str)
| Summary (t : tracker)
| ApiCall (model prompt : str)
| Saved (json_file : str) (d : data).

Record env := Env {
  OPENAI_KEY : option str;
  MODEL_NAME : option str
}.

Section WithService.

Context {Svc : Type}.

(** The text-generation service: state, model name, prompt. *)
Variable create : Svc -> str -> str -> reply * Svc.

Record world := World {
  fs : gmap str file;
  svc : Svc;
  out : list event
}.

Definition emit (e : event) (w : world) : world :=
  World (fs w) (svc w) (out w ++ [e]).

(** [json.dump(data, open(json_file, 'w'))] *)
Definition save (json_file : str) (d : data) (w : world) : world :=
  World (<[json_file := JsonFile d]> (fs w)) (svc w)
        (out w ++ [Saved json_file d]).

(** [process_chunk(client, chunk_text, prompt_template, model)]: the pair
    [(result, error)]. *)
Definition process_chunk (w : world) (chunk_text prompt_template model : str)
    : (option str * option str) * world :=
  let prompt := replace prompt_template (lit "{text}") chunk_text in
  let '(r, s) := create (svc w) model prompt in
  let w' := World (fs w) s (out w ++ [ApiCall model prompt]) in
  match r with
  | Completion content => ((content, None), w')
  | Raised msg => ((None, Some msg), w')
  end.

(** The first loop of [process_chunks]: positions of the chunks that are
    not done, and the number of those that are. *)
Fixpoint scan (cs : list chunk) (i : nat) (pending_chunks : list nat)
    (done_count : Z) : list nat * Z :=
  match cs with
  | [] => (pending_chunks, done_count)
  | chunk :: cs' =>
      if bool_decide (status_of chunk = Done)
      then scan cs' (S i) pending_chunks (done_count + 1)
      else scan cs' (S i) (pending_chunks ++ [i]) done_count
  end.

Record run_state := RunState {
  st_data : data;
  st_tracker : tracker;
  st_world : world
}.

(** One iteration of the processing loop, for the chunk at position
    [chunk_index]. *)
Definition process_one (json_file prompt_template model : str)
    (st : run_state) (chunk_index : nat) : option run_state :=
  chunk ← chunks (st_data st) !! chunk_index;
  let preview :=
    if 50 <? len (text chunk) then slice (text chunk) 0 50 ++ lit "..."
    else text chunk in
  let w1 := emit (Current (Z.of_nat chunk_index) preview) (st_world st) in
  let '((res, err), w2) :=
    process_chunk w1 (text chunk) prompt_template model in
  let '(chunk', tracker') :=
    if truthy res then
      (Chunk_ (index chunk) (text chunk) Done res (Some None),
       update (st_tracker st) true None)
    else
      (Chunk_ (index chunk) (text chunk) Error (result chunk) (Some err),
       update (st_tracker st) false (Some (Z.of_nat chunk_index))) in
  let data' :=
    Data (meta_of (st_data st)) (<[chunk_index := chunk']> (chunks (st_data st))) in
  Some (RunState data' tracker' (save json_file data' w2)).

Fixpoint process_loop (json_file prompt_template model : str)
    (pending_chunks : list nat) (st : run_state) : option run_state :=
  match pending_chunks with
  | [] => Some st
  | chunk_index :: rest =>
      st' ← process_one json_file prompt_template model st chunk_index;
      process_loop json_file prompt_template model rest st'
  end.

(** [process_chunks(json_file, prompt_template, model)]: exit status and
    the world afterwards.  [None] is an uncaught exception. *)
Definition process_chunks (e : env) (json_file prompt_template model : str)
    (w : world) : option (Z * world) :=
  if negb (truthy (OPENAI_KEY e)) then Some (1, emit MissingKey w)
  else
    match fs w !! json_file with
    | Some (JsonFile d) =>
        let '(pending_chunks, done_count) := scan (chunks d) 0 [] 0 in
        let total_chunks := len (chunks d) in
        let w1 :=
          emit (Found total_chunks (len pending_chunks) done_count)
               (emit (Starting json_file) w) in
        match pending_chunks with
        | [] => Some (0, emit AllProcessed w1)
        | _ :: _ =>
            let t := tracker_init total_chunks in
            let t := Tracker (t_total t) (processed t) done_count (failed t)
                             (failed_chunks t) in
            st ← process_loop json_file prompt_template model pending_chunks
                   (RunState d t w1);
            Some (0, emit (Summary (st_tracker st)) (st_world st))
        end
    | _ => None
    end.

(** [main()] of process.py, after argument parsing. *)
Definition main (e : env) (json_file prompt model_arg : str) (w : world)
    : option (Z * world) :=
  let model :=
    if truthy (MODEL_NAME e) then default model_arg (MODEL_NAME e)
    else model_arg in
  if bool_decide (fs w !! json_file = None)
  then Some (1, emit (JsonNotFound json_file) w)
  else process_chunks e json_file prompt model w.

End WithService.

End Process.

(** ** rebuild.py *)

Module Rebuild.

Inductive message :=
| JsonNotFound (json_file : str)
| Statistics (total completed errors pending : Z)
| WarnErrors (count : Z) (indices : list Z)
| WarnPending (count : Z) (indices : list Z)
| NothingToRebuild
| Rebuilt (count : Z) (output_file : str)
| Incomplete (missing : Z).

(** The statistics loop: done chunks, indices of error chunks, indices of
    the others. *)
Fixpoint classify (cs : list chunk) (done_chunks : list chunk)
    (error_chunks pending_chunks : list Z)
    : list chunk * list Z * list Z :=
  match cs with
  | [] => (done_chunks, error_chunks, pending_chunks)
  | chunk :: cs' =>
      if bool_decide (status_of chunk = Done) then
        classify cs' (done_chunks ++ [chunk]) error_chunks pending_chunks
      else if bool_decide (status_of chunk = Error) then
        classify cs' done_chunks (error_chunks ++ [index chunk]) pending_chunks
      else
        classify cs' done_chunks error_chunks (pending_chunks ++ [index chunk])
  end.

(** [done_chunks.sort(key=lambda x: x['index'])]: Python's sort is stable,
    and so is this insertion sort, so both compute the same list. *)
Fixpoint insert_by_index (c : chunk) (l : list chunk) : list chunk :=
  match l with
  | [] => [c]
  | d :: l' =>
      if index c <=? index d then c :: l else d :: insert_by_index c l'
  end.

Definition sort_by_index (l : list chunk) : list chunk :=
  foldr insert_by_index [] l.

(** The rebuild loop: results that are [None] or empty are skipped. *)
Fixpoint concat_results (done_chunks : list chunk) (rebuilt_text : str) : str :=
  match done_chunks with
  | [] => rebuilt_text
  | chunk :: rest =>
      if truthy (result chunk)
      then concat_results rest (rebuilt_text ++ default [] (result chunk))
      else concat_results rest rebuilt_text
  end.

Definition say_if (b : bool) (m : message) (out : list message) : list message :=
  if b then out ++ [m] else out.

Definition nonempty {A : Type} (l : list A) : bool :=
  match l with [] => false | _ :: _ => true end.

(** [rebuild_chunks(json_file, output_file)]: exit status, file system
    and console messages (the file-size line is left out). *)
Definition rebuild_chunks (stem : str -> str) (fs : gmap str file)
    (json_file : str) (output_file : option str)
    : option (Z * gmap str file * list message) :=
  match fs !! json_file with
  | Some (JsonFile d) =>
      let output_file :=
        if truthy output_file then default [] output_file
        else replace (stem json_file) (lit "_chunked") [] ++ lit "_final.txt" in
      let total_chunks := len (chunks d) in
      let '(done_chunks, error_chunks, pending_chunks) :=
        classify (chunks d) [] [] [] in
      let out :=
        [Statistics total_chunks (len done_chunks) (len error_chunks)
                    (len pending_chunks)] in
      let out :=
        say_if (nonempty error_chunks)
               (WarnErrors (len error_chunks) error_chunks) out in
      let out :=
        say_if (nonempty pending_chunks)
               (WarnPending (len pending_chunks) pending_chunks) out in
      if negb (nonempty done_chunks) then Some (1, fs, out ++ [NothingToRebuild])
      else
        let done_chunks := sort_by_index done_chunks in
        let rebuilt_text := concat_results done_chunks [] in
        let fs' := <[output_file := TextFile rebuilt_text]> fs in
        let out := out ++ [Rebuilt (len done_chunks) output_file] in
        let out :=
          say_if (nonempty error_chunks || nonempty pending_chunks)
                 (Incomplete (len error_chunks + len pending_chunks)) out in
        Some (0, fs', out)
  | _ => None
  end.

(** [main()] of rebuild.py, after argument parsing. *)
Definition main (stem : str -> str) (fs : gmap str file)
    (json_file : str) (output : option str)
    : option (Z * gmap str file * list message) :=
  if bool_decide (fs !! json_file = None)
  then Some (1, fs, [JsonNotFound json_file])
  else rebuild_chunks stem fs json_file output.

End Rebuild.

(** ** The segmentation rule in the specification's words

    The search window is [max(start, ideal - budget * 0.5) <= p < ideal]
    with [ideal = start + budget]; the half is taken exactly, so the
    bound is stated on doubled positions. *)

Module Spec.

Definition in_window (budget start p : Z) : Prop :=
  start <= p /\ 2 * (start + budget) - budget <= 2 * p /\ p < start + budget.

(** The class [c] has an occurrence in the window. *)
Definition occurs (text : str) (budget start : Z) (c : ascii) : Prop :=
  exists p, in_window budget start p /\ char_is text p c = true.

(** [p] is the last occurrence of [c] in the window. *)
Definition rightmost (text : str) (budget start : Z) (c : ascii) (p : Z) : Prop :=
  in_window budget start p /\ char_is text p c = true /\
  forall q, in_window budget start q -> char_is text q c = true -> q <= p.

(** Boundary classes, highest priority first. *)
Definition boundary_classes : list ascii :=
  [Chunk.newline; Chunk.period; Chunk.comma; Chunk.space].

(** [cut] is the cut point the specification prescribes for the segment
    starting at [start]. *)
Definition cut_point (text : str) (budget start cut : Z) : Prop :=
  (exists before c after p,
      boundary_classes = before ++ c :: after /\
      (forall c', c' ∈ before -> ~ occurs text budget start c') /\
      rightmost text budget start c p /\
      cut = p + 1)
  \/
  ((forall c', c' ∈ boundary_classes -> ~ occurs text budget start c') /\
   cut = start + budget).

(** The position in the text at which the [i]-th returned segment
    starts: the total length of the segments before it. *)
Definition segment_start (segs : list str) (i : nat) : Z :=
  len (concat (take i segs)).

(** What C7 says of one segment that starts at [start]. *)
Definition respects_budget (text : str) (b start : Z) (seg : str) : Prop :=
  ((exists c, c ∈ boundary_classes /\ occurs text b start c) ->
   b <= 2 * len seg <= 2 * b) /\
  ((forall c, c ∈ boundary_classes -> ~ occurs text b start c) ->
   len seg = b).

(** Positions, counted from [i], of the chunks that are not done. *)
Fixpoint not_done_from (cs : list chunk) (i : nat) : list nat :=
  match cs with
  | [] => []
  | c :: cs' =>
      if bool_decide (status_of c = Done) then not_done_from cs' (S i)
      else i :: not_done_from cs' (S i)
  end.

(** The invariant of the job: a done chunk carries a non-empty result. *)
Definition done_has_result (d : data) : Prop :=
  forall c, c ∈ chunks d -> status_of c = Done -> truthy (result c) = true.

(** Ascending index order. *)
Definition by_index (a b : chunk) : Prop := index a <= index b.

(** What a done chunk contributes to the rebuilt document. *)
Definition output_of (c : chunk) : str := default [] (result c).

(** Every job in the file system satisfies the invariant. *)
Definition jobs_ok (fs : gmap str file) : Prop :=
  forall path d, fs !! path = Some (JsonFile d) -> done_has_result d.

(** The chunk as one processing attempt leaves it, given what the
    service call did: a non-empty output, no usable output, or a failure. *)
Definition attempt (c : chunk) (r : Process.reply) : chunk :=
  match r with
  | Process.Completion (Some (a :: output)) =>
      Chunk_ (index c) (text c) Done (Some (a :: output)) (Some None)
  | Process.Completion _ =>
      Chunk_ (index c) (text c) Error (result c) (Some None)
  | Process.Raised msg =>
      Chunk_ (index c) (text c) Error (result c) (Some (Some msg))
  end.

(** A segment that uses the whole budget or ends with a boundary
    character. *)
Definition full_or_at_boundary (b : Z) (seg : str) : Prop :=
  len seg = b \/ exists c, c ∈ boundary_classes /\ last seg = Some c.

(** The claim that three exit statuses tell three outcomes apart. *)
Definition distinguishes (not_found nothing_to_do success : option Z) : Prop :=
  not_found <> nothing_to_do /\ nothing_to_do <> success /\
  not_found <> success.

End Spec.

(** ** Observations on the console and effect log of a processing run *)

Module Trace.

(** Chunk positions announced as being processed, in order. *)
Definition attempted (evs : list Process.event) : list Z :=
  omap (fun e => match e with Process.Current i _ => Some i | _ => None end) evs.

(** Requests sent to the service, as (model, prompt), in order. *)
Definition requests (evs : list Process.event) : list (str * str) :=
  omap (fun e => match e with Process.ApiCall m p => Some (m, p) | _ => None end) evs.

(** The prompt sent for the chunk at position [i] of a job. *)
Definition prompt_at (prompt_template : str) (cs : list chunk) (i : nat) : str :=
  replace prompt_template (lit "{text}") (from_option text [] (cs !! i)).

(** What a run of the loop over [pending] leaves on the log: one
    announcement and one request per position, in the order of the list;
    chunk texts are never changed, and positions outside the list keep
    their chunk. *)
Definition loop_trace {Svc : Type} (prompt_template model : str)
    (pending : list nat) (st st' : @Process.run_state Svc) : Prop :=
  text <$> chunks (Process.st_data st') = text <$> chunks (Process.st_data st) /\
  (forall j, j ∉ pending ->
             chunks (Process.st_data st') !! j = chunks (Process.st_data st) !! j) /\
  exists evs,
    Process.out (Process.st_world st') = Process.out (Process.st_world st) ++ evs /\
    attempted evs = Z.of_nat <$> pending /\
    requests evs =
      (fun i => (model, prompt_at prompt_template
                          (chunks (Process.st_data st)) i)) <$> pending.

(** Whether a reply counts as a success for the loop: a non-empty
    text. *)
Definition reply_ok (r : Process.reply) : bool :=
  match r with
  | Process.Completion (Some (_ :: _)) => true
  | _ => false
  end.

(** The text of a successful reply. *)
Definition content_of (r : Process.reply) : str :=
  match r with
  | Process.Completion (Some output) => output
  | _ => []
  end.

(** The positions of [pending] whose chunk in [cs] is an error chunk. *)
Definition errors_among (cs : list chunk) (pending : list nat) : list nat :=
  filter (fun j => status_of <$> cs !! j = Some Error) pending.

(** What a run of the loop over [pending] does to the job, the counters
    and the files. *)
Definition loop_effect {Svc : Type}
    (create : Svc -> str -> str -> Process.reply * Svc)
    (json_file prompt_template model : str)
    (pending : list nat) (st st' : @Process.run_state Svc) : Prop :=
  let d := Process.st_data st in
  let d' := Process.st_data st' in
  let t := Process.st_tracker st in
  let t' := Process.st_tracker st' in
  meta_of d' = meta_of d /\
  length (chunks d') = length (chunks d) /\
  (forall j, j ∉ pending -> chunks d' !! j = chunks d !! j) /\
  (forall j c, j ∈ pending -> chunks d !! j = Some c ->
     exists s,
       chunks d' !! j
       = Some (Spec.attempt c
                 (create s model
                    (replace prompt_template (lit "{text}") (text c))).1)) /\
  Process.t_total t' = Process.t_total t /\
  Process.processed t' = Process.processed t + len pending /\
  Process.success t' + Process.failed t'
  = Process.success t + Process.failed t + len pending /\
  Process.failed t' - len (Process.failed_chunks t')
  = Process.failed t - len (Process.failed_chunks t) /\
  Process.failed_chunks t'
  = Process.failed_chunks t ++ (Z.of_nat <$> errors_among (chunks d') pending) /\
  (forall p, p <> json_file ->
             Process.fs (Process.st_world st') !! p
             = Process.fs (Process.st_world st) !! p) /\
  (pending <> [] ->
   Process.fs (Process.st_world st') !! json_file = Some (JsonFile d')) /\
  (pending = [] -> st' = st).

(** The chunk after a run against a service whose replies are given by
    [f]: a done chunk is kept, any other is attempted. *)
Definition processed (f : str -> str -> Process.reply)
    (prompt_template model : str) (c : chunk) : chunk :=
  if bool_decide (status_of c = Done) then c
  else Spec.attempt c (f model (replace prompt_template (lit "{text}") (text c))).

End Trace.

(** ** Sample jobs, services and worlds for the concrete checks *)

Module Sample.

Definition job_file : str := lit "book_chunked.json".

Definition fresh (i : Z) (t : string) : chunk :=
  Chunk_ i (lit t) Pending None None.

Definition finished (i : Z) (t r : string) : chunk :=
  Chunk_ i (lit t) Done (Some (lit r)) (Some None).

Definition failed (i : Z) (t m : string) : chunk :=
  Chunk_ i (lit t) Error None (Some (Some (lit m))).

Definition job (cs : list chunk) : data :=
  Data (Meta (lit "book") 10 (len cs)) cs.

(** A service that answers every request with an empty text. *)
Definition silent (s : unit) (model prompt : str) : Process.reply * unit :=
  (Process.Completion (Some []), s).

(** A service that answers with the prompt itself and counts requests. *)
Definition echo (n : nat) (model prompt : str) : Process.reply * nat :=
  (Process.Completion (Some prompt), S n).

(** A service that fails on its first request and echoes afterwards. *)
Definition flaky (n : nat) (model prompt : str) : Process.reply * nat :=
  match n with
  | O => (Process.Raised (lit "timeout"), S n)
  | S _ => (Process.Completion (Some prompt), S n)
  end.

Definition world_with {Svc : Type} (s : Svc) (d : data) : Process.world :=
  Process.World {[ job_file := JsonFile d ]} s [].

Definition keyed : Process.env := Process.Env (Some (lit "sk-test")) None.

Definition template : str := lit "Fix: {text}".

(** A job with one done, one failed and one pending chunk. *)
Definition mixed : data :=
  job [finished 0 "one " "ONE "; failed 1 "two " "timeout"; fresh 2 "three"].

(** The job of the rebuild example: done, error, done. *)
Definition gapped : data :=
  job [finished 0 "a" "A"; failed 1 "b" "boom"; finished 2 "c" "B"].

(** A job as [chunk.py] leaves it: nothing processed yet. *)
Definition untouched : data :=
  job [fresh 0 "one "; fresh 1 "two"].

(** A stand-in for [Path(p).stem] on names that end in a five-character
    suffix such as [.json]. *)
Definition stem (p : str) : str := take (length p - 5) p.

(** [Path(p).stem] for a path that does not end with a slash: the
    last component, without its last suffix. *)
Definition path_stem (p : str) : str :=
  let name := slice_from p (rfind p "/"%char 0 (len p) + 1) in
  let i := rfind name "."%char 0 (len name) in
  if (0 <? i) && (i <? len name - 1) then slice name 0 i else name.

Definition disk (d : data) : gmap str file := {[ job_file := JsonFile d ]}.

(** A job whose chunks are all done. *)
Definition complete : data :=
  job [finished 0 "one " "ONE "; finished 1 "two" "TWO"].

Definition gpt : str := lit "gpt".

Definition start_state {Svc : Type} (s : Svc) (d : data) : Process.run_state :=
  Process.RunState d (Process.tracker_init (len (chunks d))) (world_with s d).

End Sample.

(** * Properties *)

(** ** Slices and backward search *)

Lemma clamp_index_id n i : 0 <= i <= n -> clamp_index n i = i.
Proof.
  intros H. unfold clamp_index.
  destruct (Z.ltb_spec i 0); lia.
Qed.

Lemma len_nonneg {A} (l : list A) : 0 <= len l.
Proof. unfold len. lia. Qed.

Lemma slice_in_range text lo hi :
  0 <= lo <= hi -> hi <= len text ->
  slice text lo hi = take (Z.to_nat (hi - lo)) (drop (Z.to_nat lo) text).
Proof.
  intros Hlo Hhi. unfold slice.
  rewrite !clamp_index_id by lia. reflexivity.
Qed.

Lemma slice_from_in_range text lo :
  0 <= lo <= len text -> slice_from text lo = drop (Z.to_nat lo) text.
Proof.
  intros H. unfold slice_from. rewrite clamp_index_id by lia. reflexivity.
Qed.

Lemma length_slice text lo hi :
  0 <= lo <= hi -> hi <= len text -> len (slice text lo hi) = hi - lo.
Proof.
  intros Hlo Hhi. rewrite slice_in_range by lia.
  unfold len in *. rewrite length_take, length_drop. lia.
Qed.

Lemma take_slice text lo hi :
  0 <= lo <= hi -> hi <= len text ->
  take (Z.to_nat lo) text ++ slice text lo hi = take (Z.to_nat hi) text.
Proof.
  intros Hlo Hhi. rewrite slice_in_range by lia.
  rewrite take_take_drop. f_equal. lia.
Qed.

Lemma take_slice_from text lo :
  0 <= lo <= len text ->
  take (Z.to_nat lo) text ++ slice_from text lo = text.
Proof.
  intros H. rewrite slice_from_in_range by lia. apply take_drop.
Qed.

(** What the backward scan returns: [-1] when the character is nowhere in
    the scanned positions, and otherwise its highest position there. *)
Lemma rscan_spec text c lo n :
  0 <= lo ->
  (rscan text c lo n = -1 /\
   forall p, lo <= p < lo + Z.of_nat n -> char_is text p c = false)
  \/
  (lo <= rscan text c lo n < lo + Z.of_nat n /\
   char_is text (rscan text c lo n) c = true /\
   forall q, rscan text c lo n < q < lo + Z.of_nat n ->
             char_is text q c = false).
Proof.
  intros Hlo. induction n as [|k IH]; simpl rscan.
  - left. split; [reflexivity | intros p Hp; lia].
  - destruct (char_is text (lo + Z.of_nat k) c) eqn:Hk.
    + right. split; [lia|]. split; [exact Hk|]. intros q Hq. lia.
    + destruct IH as [[Hm Hno] | (Hr & Hc & Hafter)].
      * left. split; [assumption|].
        intros p Hp. destruct (Z.eq_dec p (lo + Z.of_nat k)) as [->|Hne].
        -- assumption.
        -- apply Hno. lia.
      * right. split; [lia|]. split; [exact Hc|].
        intros q Hq. destruct (Z.eq_dec q (lo + Z.of_nat k)) as [->|Hne].
        -- assumption.
        -- apply Hafter. lia.
Qed.

Lemma rfind_spec text c lo hi :
  0 <= lo -> lo <= hi -> hi <= len text ->
  (rfind text c lo hi = -1 /\
   forall p, lo <= p < hi -> char_is text p c = false)
  \/
  (lo <= rfind text c lo hi < hi /\
   char_is text (rfind text c lo hi) c = true /\
   forall q, rfind text c lo hi < q < hi -> char_is text q c = false).
Proof.
  intros Hlo Hle Hhi. unfold rfind.
  rewrite !clamp_index_id by lia.
  pose proof (rscan_spec text c lo (Z.to_nat (hi - lo)) Hlo) as H.
  rewrite Z2Nat.id in H by lia.
  replace (lo + (hi - lo)) with hi in H by lia. exact H.
Qed.

(** ** The break chosen by [best_break] *)

Lemma in_window_search_start b start p :
  1 <= b ->
  Spec.in_window b start p <->
  Chunk.search_start b start <= p < start + b.
Proof.
  intros Hb. unfold Spec.in_window, Chunk.search_start, Chunk.half.
  rewrite Z.quot_div_nonneg by lia.
  pose proof (Z.div_mod b 2 ltac:(lia)) as Hd.
  pose proof (Z.mod_pos_bound b 2 ltac:(lia)) as Hm.
  lia.
Qed.

Lemma search_start_bounds b start :
  1 <= b ->
  start <= Chunk.search_start b start <= start + b.
Proof.
  intros Hb. unfold Chunk.search_start, Chunk.half.
  rewrite Z.quot_div_nonneg by lia.
  pose proof (Z.div_mod b 2 ltac:(lia)) as Hd.
  pose proof (Z.mod_pos_bound b 2 ltac:(lia)) as Hm.
  lia.
Qed.

(** [rfind] over the search window, in the specification's vocabulary. *)
Lemma rfind_window text b start c :
  1 <= b -> 0 <= start -> start + b <= len text ->
  let r := rfind text c (Chunk.search_start b start) (start + b) in
  (r = -1 /\ ~ Spec.occurs text b start c) \/
  (r <> -1 /\ Spec.rightmost text b start c r).
Proof.
  intros Hb Hs Hlen r.
  pose proof (search_start_bounds b start Hb) as Hss.
  destruct (rfind_spec text c (Chunk.search_start b start) (start + b))
    as [[Hm Hno] | (Hr & Hc & Hafter)]; try lia.
  - left. split; [exact Hm|].
    intros (p & Hw & Hp). apply in_window_search_start in Hw; [|lia].
    rewrite Hno in Hp by lia. discriminate.
  - right. fold r in Hr, Hc, Hafter. split; [lia|].
    split; [apply in_window_search_start; lia|].
    split; [exact Hc|].
    intros q Hw Hq. apply in_window_search_start in Hw; [|lia].
    destruct (Z_le_gt_dec q r) as [|Hgt]; [assumption|].
    rewrite Hafter in Hq by lia. discriminate.
Qed.

Lemma eqb_minus_one_false r : r <> -1 -> negb (r =? -1) = true.
Proof. intros H. destruct (Z.eqb_spec r (-1)); [contradiction | reflexivity]. Qed.

Ltac in_classes H :=
  repeat (apply elem_of_cons in H as [-> | H]; [assumption|]);
  inversion H.

Lemma best_break_cut_point text b start :
  1 <= b -> 0 <= start -> start + b <= len text ->
  Spec.cut_point text b start (Chunk.best_break text b start).
Proof.
  intros Hb Hs Hlen. unfold Chunk.best_break. cbv zeta.
  destruct (rfind_window text b start Chunk.newline Hb Hs Hlen) as [[E1 N1]|[E1 R1]].
  2:{ rewrite (eqb_minus_one_false _ E1). left.
      eexists [], Chunk.newline, _, _.
      split; [reflexivity|]. split; [|split; [exact R1 | reflexivity]].
      intros c' Hc'. inversion Hc'. }
  rewrite E1. simpl negb. cbv iota.
  destruct (rfind_window text b start Chunk.period Hb Hs Hlen) as [[E2 N2]|[E2 R2]].
  2:{ rewrite (eqb_minus_one_false _ E2). left.
      eexists [Chunk.newline], Chunk.period, _, _.
      split; [reflexivity|]. split; [|split; [exact R2 | reflexivity]].
      intros c' Hc'. in_classes Hc'. }
  rewrite E2. simpl negb. cbv iota.
  destruct (rfind_window text b start Chunk.comma Hb Hs Hlen) as [[E3 N3]|[E3 R3]].
  2:{ rewrite (eqb_minus_one_false _ E3). left.
      eexists [Chunk.newline; Chunk.period], Chunk.comma, _, _.
      split; [reflexivity|]. split; [|split; [exact R3 | reflexivity]].
      intros c' Hc'. in_classes Hc'. }
  rewrite E3. simpl negb. cbv iota.
  destruct (rfind_window text b start Chunk.space Hb Hs Hlen) as [[E4 N4]|[E4 R4]].
  2:{ rewrite (eqb_minus_one_false _ E4). left.
      eexists [Chunk.newline; Chunk.period; Chunk.comma], Chunk.space, _, _.
      split; [reflexivity|]. split; [|split; [exact R4 | reflexivity]].
      intros c' Hc'. in_classes Hc'. }
  rewrite E4. simpl negb. cbv iota.
  right. split; [|reflexivity].
  intros c' Hc'. unfold Spec.boundary_classes in Hc'. in_classes Hc'.
Qed.

(** The cut prescribed by the specification lies strictly after [start],
    leaves at least half a budget behind it and never passes the ideal. *)
Lemma cut_point_bounds text b start cut :
  1 <= b ->
  Spec.cut_point text b start cut ->
  start < cut <= start + b /\ b <= 2 * (cut - start).
Proof.
  intros Hb [(before & c & after & p & _ & _ & (Hw & _) & ->) | [_ ->]].
  - unfold Spec.in_window in Hw. lia.
  - lia.
Qed.

Lemma cut_point_no_boundary text b start cut :
  Spec.cut_point text b start cut ->
  (forall c, c ∈ Spec.boundary_classes -> ~ Spec.occurs text b start c) ->
  cut = start + b.
Proof.
  intros [(before & c & after & p & Hcl & _ & (Hw & Hc & _) & ->) | [_ ->]] Hno.
  - exfalso. apply (Hno c).
    + rewrite Hcl. set_solver.
    + exists p. split; assumption.
  - reflexivity.
Qed.

Lemma best_break_bounds text b start :
  1 <= b -> 0 <= start -> start + b <= len text ->
  start < Chunk.best_break text b start <= start + b.
Proof.
  intros Hb Hs Hlen.
  apply (cut_point_bounds text b start); [assumption|].
  apply best_break_cut_point; assumption.
Qed.

(** The specification's rule determines the cut: no two cuts satisfy
    it for the same segment start. *)
Lemma split_compare {A} (l1 l1' l2 l2' : list A) x y :
  l1 ++ x :: l2 = l1' ++ y :: l2' ->
  (l1 = l1' /\ x = y) \/ x ∈ l1' \/ y ∈ l1.
Proof.
  revert l1'. induction l1 as [|a l1 IH]; intros [|a' l1'] H; simpl in H.
  - left. injection H as -> _. split; reflexivity.
  - right. left. injection H as -> _. left.
  - right. right. injection H as -> _. left.
  - injection H as -> H. destruct (IH _ H) as [[-> ->] | [Hx | Hy]].
    + left. split; reflexivity.
    + right. left. right. exact Hx.
    + right. right. right. exact Hy.
Qed.

Lemma rightmost_occurs text b start c p :
  Spec.rightmost text b start c p -> Spec.occurs text b start c.
Proof. intros (Hw & Hc & _). exists p. split; assumption. Qed.

Lemma cut_point_unique text b start cut cut' :
  Spec.cut_point text b start cut ->
  Spec.cut_point text b start cut' ->
  cut = cut'.
Proof.
  intros [(l1 & c & l2 & p & Hcl & Hno & Hr & ->) | [Hnone ->]]
         [(l1' & c' & l2' & p' & Hcl' & Hno' & Hr' & ->) | [Hnone' ->]].
  - rewrite Hcl in Hcl'.
    destruct (split_compare _ _ _ _ _ _ Hcl') as [[_ <-] | [Hin | Hin]].
    + destruct Hr as (Hw & Hc & Hmax), Hr' as (Hw' & Hc' & Hmax').
      pose proof (Hmax _ Hw' Hc'). pose proof (Hmax' _ Hw Hc). lia.
    + exfalso. apply (Hno' _ Hin). eapply rightmost_occurs. exact Hr.
    + exfalso. apply (Hno _ Hin). eapply rightmost_occurs. exact Hr'.
  - exfalso. apply (Hnone' c).
    + rewrite Hcl. apply elem_of_app. right. left.
    + eapply rightmost_occurs. exact Hr.
  - exfalso. apply (Hnone c').
    + rewrite Hcl'. apply elem_of_app. right. left.
    + eapply rightmost_occurs. exact Hr'.
  - reflexivity.
Qed.

(** ** The segmentation loop *)

(** Unfolding one iteration that cuts (the remaining text is longer than
    the budget). *)
Lemma chunk_loop_step fuel text b start chunks :
  start + b < len text -> 0 <= b ->
  Chunk.chunk_loop (S fuel) text b start chunks =
  Chunk.chunk_loop fuel text b (Chunk.best_break text b start)
    (chunks ++ [slice text start (Chunk.best_break text b start)]).
Proof.
  intros Hlt Hb. cbn [Chunk.chunk_loop].
  destruct (Z.ltb_spec start (len text)); [|lia].
  destruct (Z.geb_spec (start + b) (len text)); [lia|]. reflexivity.
Qed.

(** Invariant rule for the loop: with a positive budget and more fuel
    than remaining characters the loop returns, and an invariant kept by
    every cutting iteration holds where the loop stops. *)
Lemma chunk_loop_rule text b (I : Z -> list str -> Prop) :
  1 <= b ->
  (forall start chunks,
      0 <= start -> start + b < len text -> I start chunks ->
      I (Chunk.best_break text b start)
        (chunks ++ [slice text start (Chunk.best_break text b start)])) ->
  forall fuel start chunks,
    0 <= start -> I start chunks ->
    Z.max 0 (len text - start) < Z.of_nat fuel ->
    exists segs s chunks',
      Chunk.chunk_loop fuel text b start chunks = Some segs /\
      0 <= s /\ I s chunks' /\
      ((len text <= s /\ segs = chunks') \/
       (s < len text /\ len text <= s + b /\
        segs = chunks' ++ [slice_from text s])).
Proof.
  intros Hb Hstep fuel.
  induction fuel as [|fuel IH]; intros start chunks Hs HI Hfuel; [lia|].
  cbn [Chunk.chunk_loop]. destruct (Z.ltb_spec start (len text)) as [Hlt|Hge].
  - destruct (Z.geb_spec (start + b) (len text)) as [Hend|Hend].
    + eexists _, start, chunks. split; [reflexivity|].
      split; [lia|]. split; [assumption|]. right.
      split; [lia|]. split; [lia | reflexivity].
    + pose proof (best_break_bounds text b start Hb Hs ltac:(lia)) as Hbb.
      apply IH; [lia | apply Hstep; assumption | lia].
  - eexists _, start, chunks. split; [reflexivity|].
    split; [lia|]. split; [assumption|]. left. split; [lia | reflexivity].
Qed.

(** More fuel never changes a result. *)
Lemma chunk_loop_fuel_mono text b fuel fuel' start chunks segs :
  (fuel <= fuel')%nat ->
  Chunk.chunk_loop fuel text b start chunks = Some segs ->
  Chunk.chunk_loop fuel' text b start chunks = Some segs.
Proof.
  revert fuel' start chunks.
  induction fuel as [|fuel IH]; intros fuel' start chunks Hle H; [discriminate|].
  destruct fuel' as [|fuel']; [lia|].
  cbn [Chunk.chunk_loop] in *. destruct (start <? len text); [|assumption].
  destruct (start + b >=? len text); [assumption|].
  apply IH; [lia | assumption].
Qed.

(** Without the precondition the loop does not return: for a budget
    of 0 or less, [start] never reaches the end of a non-empty text. *)
Lemma rscan_range text c lo n :
  rscan text c lo n = -1 \/ lo <= rscan text c lo n < lo + Z.of_nat n.
Proof.
  induction n as [|k IH]; simpl; [left; reflexivity|].
  destruct (char_is text (lo + Z.of_nat k) c); [right; lia|].
  destruct IH as [IH | IH]; [left; exact IH | right; lia].
Qed.

Lemma clamp_index_nonneg n i : 0 <= n -> 0 <= clamp_index n i.
Proof. intros Hn. unfold clamp_index. destruct (Z.ltb_spec i 0); lia. Qed.

Lemma rfind_range text c lo hi :
  rfind text c lo hi = -1 \/
  0 <= rfind text c lo hi < clamp_index (len text) hi.
Proof.
  unfold rfind.
  pose proof (clamp_index_nonneg (len text) lo (len_nonneg text)) as Hlo.
  set (lo' := clamp_index (len text) lo) in *.
  set (hi' := clamp_index (len text) hi).
  destruct (Z_le_gt_dec lo' hi') as [Hle | Hgt].
  - destruct (rscan_range text c lo' (Z.to_nat (hi' - lo'))) as [H | H];
      [left; exact H | right; lia].
  - left. replace (Z.to_nat (hi' - lo')) with 0%nat by lia. reflexivity.
Qed.

Lemma clamp_index_below n i :
  0 <= n -> i < n -> clamp_index n i < n \/ clamp_index n i = 0.
Proof. intros Hn Hi. unfold clamp_index. destruct (Z.ltb_spec i 0); lia. Qed.

Lemma best_break_below text b start :
  b <= 0 -> start < len text ->
  Chunk.best_break text b start < len text.
Proof.
  intros Hb Hs. unfold Chunk.best_break. cbv zeta.
  pose proof (clamp_index_below (len text) (start + b) (len_nonneg text)
                ltac:(lia)) as Hc.
  repeat match goal with
  | |- context [rfind text ?c ?lo ?hi =? -1] =>
      destruct (rfind_range text c lo hi);
      destruct (Z.eqb_spec (rfind text c lo hi) (-1)); cbn [negb]; try lia
  end.
Qed.

Lemma chunk_loop_diverges text b :
  b <= 0 ->
  forall fuel start chunks,
    start < len text ->
    Chunk.chunk_loop fuel text b start chunks = None.
Proof.
  intros Hb fuel. induction fuel as [|fuel IH]; intros start chunks Hs.
  - reflexivity.
  - cbn [Chunk.chunk_loop].
    destruct (Z.ltb_spec start (len text)); [|lia].
    destruct (Z.geb_spec (start + b) (len text)); [lia|].
    apply IH. apply best_break_below; lia.
Qed.

(** C1. For every text and every budget of at least 1, [chunk_text]
    returns, and the concatenation of the returned segments in output
    order is the text itself. *)
Theorem chunk_text_round_trip (text : str) (b : Z) :
  1 <= b ->
  exists segs, Chunk.chunk_text text b = Some segs /\ concat segs = text.
Proof.
  intros Hb. unfold Chunk.chunk_text.
  destruct (chunk_loop_rule text b
              (fun start chunks =>
                 start <= len text /\
                 concat chunks = take (Z.to_nat start) text) Hb)
    with (fuel := S (length text)) (start := 0) (chunks := @nil str)
    as (segs & s & chunks' & Hrun & Hs & [Hle Hcat] & Hend).
  - intros start chunks Hs Hlt [_ Hcat].
    pose proof (best_break_bounds text b start Hb Hs ltac:(lia)) as Hbb.
    split; [lia|].
    rewrite concat_app, Hcat. simpl. rewrite app_nil_r.
    apply take_slice; lia.
  - lia.
  - split; [apply len_nonneg | reflexivity].
  - unfold len. lia.
  - exists segs. split; [exact Hrun|].
    destruct Hend as [[Hlen ->] | (Hlt & _ & ->)].
    + rewrite Hcat. apply take_ge. unfold len in *. lia.
    + rewrite concat_app, Hcat. simpl. rewrite app_nil_r.
      apply take_slice_from. lia.
Qed.

Lemma chunk_text_round_trip_witness :
  1 <= 4 /\
  exists segs,
    Chunk.chunk_text (lit "one two, three.") 4 = Some segs /\
    concat segs = lit "one two, three.".
Proof.
  split; [lia|].
  apply (chunk_text_round_trip (lit "one two, three.") 4). lia.
Defined.

(** C8. With a budget of at least 1 the loop returns on every text, for
    any amount of fuel above the length of the text; every iteration
    that cuts moves [start] strictly forward; no returned segment is
    empty. *)
Theorem chunk_text_terminates_nonempty (text : str) (b : Z) :
  1 <= b ->
  exists segs,
    (forall fuel, (length text < fuel)%nat ->
                  Chunk.chunk_loop fuel text b 0 [] = Some segs) /\
    Chunk.chunk_text text b = Some segs /\
    (forall seg, seg ∈ segs -> seg <> []) /\
    (forall start, 0 <= start -> start + b < len text ->
                   start < Chunk.best_break text b start).
Proof.
  intros Hb. unfold Chunk.chunk_text.
  destruct (chunk_loop_rule text b
              (fun start chunks => forall seg, seg ∈ chunks -> seg <> []) Hb)
    with (fuel := S (length text)) (start := 0) (chunks := @nil str)
    as (segs & s & chunks' & Hrun & Hs & HI & Hend).
  - intros start chunks Hs Hlt HI seg Hin.
    pose proof (best_break_bounds text b start Hb Hs ltac:(lia)) as Hbb.
    apply elem_of_app in Hin as [Hin | Hin]; [apply HI; assumption|].
    apply list_elem_of_singleton in Hin as ->.
    intros E. pose proof (length_slice text start (Chunk.best_break text b start)
                            ltac:(lia) ltac:(lia)) as Hl.
    rewrite E in Hl. unfold len in Hl. simpl in Hl. lia.
  - lia.
  - intros seg Hin. inversion Hin.
  - unfold len. lia.
  - exists segs. split; [|split; [exact Hrun | split]].
    + intros fuel Hfuel.
      apply (chunk_loop_fuel_mono text b (S (length text))); [lia | exact Hrun].
    + destruct Hend as [[_ ->] | (Hlt & _ & ->)]; [exact HI|].
      intros seg Hin.
      apply elem_of_app in Hin as [Hin | Hin]; [apply HI; assumption|].
      apply list_elem_of_singleton in Hin as ->.
      rewrite slice_from_in_range by lia.
      intros E. apply (f_equal length) in E.
      rewrite length_drop in E. unfold len in *. simpl in E. lia.
    + intros start Hs' Hlt.
      apply (best_break_bounds text b start Hb Hs'). lia.
Qed.

Lemma chunk_text_terminates_nonempty_witness :
  1 <= 1 /\
  exists segs,
    (forall fuel, (length (lit "a b") < fuel)%nat ->
                  Chunk.chunk_loop fuel (lit "a b") 1 0 [] = Some segs) /\
    Chunk.chunk_text (lit "a b") 1 = Some segs /\
    (forall seg, seg ∈ segs -> seg <> []) /\
    (forall start, 0 <= start -> start + 1 < len (lit "a b") ->
                   start < Chunk.best_break (lit "a b") 1 start).
Proof.
  split; [lia|].
  apply (chunk_text_terminates_nonempty (lit "a b") 1). lia.
Defined.

Lemma len_app {A} (l k : list A) : len (l ++ k) = len l + len k.
Proof. unfold len. rewrite length_app. lia. Qed.

Lemma best_break_respects_budget text b start :
  1 <= b -> 0 <= start -> start + b < len text ->
  Spec.respects_budget text b start (slice text start (Chunk.best_break text b start)).
Proof.
  intros Hb Hs Hlt.
  pose proof (best_break_cut_point text b start Hb Hs ltac:(lia)) as Hcut.
  pose proof (cut_point_bounds _ _ _ _ Hb Hcut) as [Hbb Hhalf].
  unfold Spec.respects_budget. rewrite length_slice by lia. split.
  - intros _. lia.
  - intros Hno. rewrite (cut_point_no_boundary _ _ _ _ Hcut Hno). lia.
Qed.

(** C7. For a budget of at least 1, every returned segment but the last
    has a length between half the budget and the budget when a boundary
    character occurs in its search window, and a length of exactly the
    budget when none does. *)
Theorem chunk_text_budget (text : str) (b : Z) (segs : list str) :
  1 <= b ->
  Chunk.chunk_text text b = Some segs ->
  forall (i : nat) (seg : str),
    (S i < length segs)%nat ->
    segs !! i = Some seg ->
    Spec.respects_budget text b (Spec.segment_start segs i) seg.
Proof.
  intros Hb Hrun. unfold Chunk.chunk_text in Hrun.
  destruct (chunk_loop_rule text b
              (fun start chunks =>
                 start = len (concat chunks) /\
                 forall (i : nat) (seg : str),
                   chunks !! i = Some seg ->
                   Spec.respects_budget text b (Spec.segment_start chunks i) seg) Hb)
    with (fuel := S (length text)) (start := 0) (chunks := @nil str)
    as (segs' & s & chunks' & Hrun' & Hs & [Hpos HI] & Hend).
  - intros start chunks Hs Hlt [Hpos HI].
    pose proof (best_break_bounds text b start Hb Hs ltac:(lia)) as Hbb.
    split.
    + rewrite concat_app, len_app. simpl.
      rewrite app_nil_r, length_slice by lia. lia.
    + intros i seg Hi.
      destruct (decide (i < length chunks)%nat) as [Hin | Hout].
      * rewrite lookup_app_l in Hi by assumption.
        unfold Spec.segment_start. rewrite take_app_le by lia.
        apply HI. assumption.
      * pose proof (lookup_lt_Some _ _ _ Hi) as Hlen.
        rewrite length_app in Hlen. simpl in Hlen.
        assert (i = length chunks) as -> by lia.
        rewrite lookup_app_r in Hi by lia.
        rewrite Nat.sub_diag in Hi. simpl in Hi. injection Hi as <-.
        unfold Spec.segment_start. rewrite take_app_length, <- Hpos.
        apply best_break_respects_budget; assumption.
  - lia.
  - split; [reflexivity|]. intros i seg Hi. destruct i; discriminate.
  - unfold len. lia.
  - rewrite Hrun in Hrun'. injection Hrun' as <-.
    intros i seg Hlast Hi.
    destruct Hend as [[_ ->] | (Hlt & _ & ->)]; [apply HI; assumption|].
    rewrite length_app in Hlast. simpl in Hlast.
    rewrite lookup_app_l in Hi by lia.
    unfold Spec.segment_start. rewrite take_app_le by lia.
    apply HI. assumption.
Qed.

Lemma chunk_text_budget_witness :
  let text := lit "Hello world. Foo bar," in
  let segs := [lit "Hello "; lit "world."; lit " Foo bar,"] in
  (1 <= 10 /\ Chunk.chunk_text text 10 = Some segs /\
   (S 1 < length segs)%nat /\ segs !! 1%nat = Some (lit "world.")) /\
  Spec.respects_budget text 10 (Spec.segment_start segs 1) (lit "world.").
Proof.
  intros text segs.
  assert (H1 : 1 <= 10) by lia.
  assert (H2 : Chunk.chunk_text text 10 = Some segs) by reflexivity.
  assert (H3 : (S 1 < length segs)%nat) by (simpl; lia).
  assert (H4 : segs !! 1%nat = Some (lit "world.")) by reflexivity.
  split; [repeat split; assumption|].
  exact (chunk_text_budget text 10 segs H1 H2 1%nat (lit "world.") H3 H4).
Defined.

(** C3. For a budget of at least 1, the segments [chunk_text] returns
    are cut as the specification prescribes. Every segment but the last
    starts where the remaining text is longer than the budget, and the
    position where it ends (the start of the next segment) is the cut
    point of the rule: one past the rightmost occurrence, in the window
    of the segment, of the first class in the order newline, period,
    comma, space that occurs there, and the ideal position when none
    occurs. The last segment starts where the remaining text fits the
    budget. *)
Theorem chunk_text_cut_priority (text : str) (b : Z) :
  1 <= b ->
  exists segs,
    Chunk.chunk_text text b = Some segs /\
    concat segs = text /\
    (forall i : nat,
        (S i < length segs)%nat ->
        Spec.segment_start segs i + b < len text /\
        Spec.cut_point text b (Spec.segment_start segs i)
                              (Spec.segment_start segs (S i))) /\
    (forall i : nat,
        S i = length segs ->
        len text <= Spec.segment_start segs i + b).
Proof.
  intros Hb. unfold Chunk.chunk_text.
  destruct (chunk_loop_rule text b
              (fun start chunks =>
                 start = len (concat chunks) /\
                 start <= len text /\
                 concat chunks = take (Z.to_nat start) text /\
                 Forall (fun seg => len seg <= b) chunks /\
                 forall i : nat,
                   (i < length chunks)%nat ->
                   Spec.segment_start chunks i + b < len text /\
                   Spec.cut_point text b (Spec.segment_start chunks i)
                                         (Spec.segment_start chunks (S i))) Hb)
    with (fuel := S (length text)) (start := 0) (chunks := @nil str)
    as (segs & s & chunks' & Hrun & Hs & (Hpos & Hle & Hcat & Hlen & Hcuts) & Hend).
  - intros start chunks Hs Hlt (Hpos & _ & Hcat & Hlen & Hcuts).
    pose proof (best_break_cut_point text b start Hb Hs ltac:(lia)) as Hcut.
    pose proof (cut_point_bounds _ _ _ _ Hb Hcut) as [Hbb _].
    assert (Hnew : len (concat (chunks ++ [slice text start
                                             (Chunk.best_break text b start)]))
                   = Chunk.best_break text b start).
    { rewrite concat_app, len_app. simpl.
      rewrite app_nil_r, length_slice by lia. lia. }
    split; [symmetry; exact Hnew|]. split; [lia|]. split.
    { rewrite concat_app, Hcat. simpl. rewrite app_nil_r.
      apply take_slice; lia. }
    split.
    { apply Forall_app. split; [exact Hlen|]. apply Forall_singleton.
      rewrite length_slice by lia. lia. }
    intros i Hi. rewrite length_app in Hi. simpl in Hi.
    destruct (decide (i < length chunks)%nat) as [Hin | Hout].
    + unfold Spec.segment_start.
      rewrite !take_app_le by lia. apply Hcuts. exact Hin.
    + assert (i = length chunks) as -> by lia.
      unfold Spec.segment_start.
      rewrite take_app_length, <- Hpos.
      rewrite take_ge by (rewrite length_app; simpl; lia).
      rewrite Hnew. split; [lia | exact Hcut].
  - lia.
  - split; [reflexivity|]. split; [apply len_nonneg|]. split; [reflexivity|].
    split; [constructor|]. intros i Hi. simpl in Hi. lia.
  - unfold len. lia.
  - exists segs. split; [exact Hrun|].
    destruct Hend as [[Hge ->] | (Hlt & Hfit & ->)].
    + split; [rewrite Hcat; apply take_ge; unfold len in *; lia|].
      split; [intros i Hi; apply Hcuts; lia|].
      intros i Hi.
      assert (Hx : is_Some (chunks' !! i)) by (apply lookup_lt_is_Some; lia).
      destruct Hx as [x Hx].
      assert (Hall : take (S i) chunks' = chunks') by (apply take_ge; lia).
      rewrite (take_S_r _ _ _ Hx) in Hall.
      rewrite Forall_lookup in Hlen. pose proof (Hlen i x Hx) as Hxb.
      unfold Spec.segment_start.
      rewrite <- Hall, concat_app, len_app in Hpos. simpl in Hpos.
      rewrite app_nil_r in Hpos. lia.
    + split.
      { rewrite concat_app, Hcat. simpl. rewrite app_nil_r.
        apply take_slice_from. lia. }
      split.
      * intros i Hi. rewrite length_app in Hi. simpl in Hi.
        unfold Spec.segment_start. rewrite !take_app_le by lia.
        apply Hcuts. lia.
      * intros i Hi. rewrite length_app in Hi. simpl in Hi.
        assert (i = length chunks') as -> by lia.
        unfold Spec.segment_start. rewrite take_app_length, <- Hpos. exact Hfit.
Qed.

Lemma chunk_text_cut_priority_witness :
  let text := lit ("ab cd." ++ String "010" "ef gh ij kl") in
  1 <= 10 /\
  exists segs,
    Chunk.chunk_text text 10 = Some segs /\
    segs = [lit ("ab cd." ++ String "010" ""); lit "ef gh ij "; lit "kl"] /\
    concat segs = text /\
    Spec.cut_point text 10 (Spec.segment_start segs 0) (Spec.segment_start segs 1) /\
    Spec.segment_start segs 0 = 0 /\
    Spec.segment_start segs 1 = 7.
Proof.
  intros text.
  assert (H1 : 1 <= 10) by lia.
  split; [exact H1|].
  destruct (chunk_text_cut_priority text 10 H1)
    as (segs & Hrun & Hcat & Hcuts & _).
  assert (Hsegs : segs = [lit ("ab cd." ++ String "010" ""); lit "ef gh ij ";
                          lit "kl"]).
  { assert (E : Chunk.chunk_text text 10
                = Some [lit ("ab cd." ++ String "010" ""); lit "ef gh ij ";
                        lit "kl"]) by reflexivity.
    rewrite Hrun in E. injection E as ->. reflexivity. }
  exists segs. split; [exact Hrun|]. split; [exact Hsegs|].
  split; [exact Hcat|]. split.
  - apply Hcuts. rewrite Hsegs. simpl. lia.
  - rewrite Hsegs. split; reflexivity.
Defined.

(** ** The processing run *)

Section ProcessRun.

Context {Svc : Type}.
Variable create : Svc -> str -> str -> Process.reply * Svc.
Variables json_file prompt_template model : str.

Abbreviation process_one := (Process.process_one create json_file prompt_template model).
Abbreviation process_loop := (Process.process_loop create json_file prompt_template model).

(** One iteration, written out: the chunk is replaced by what
    [Spec.attempt] describes, and the console line, the request and the
    save follow each other in that order. *)
Lemma process_one_eq (st : Process.run_state) (i : nat) (c : chunk) r s :
  chunks (Process.st_data st) !! i = Some c ->
  create (Process.svc (Process.st_world st)) model
         (replace prompt_template (lit "{text}") (text c)) = (r, s) ->
  exists t preview,
    let d' := Data (meta_of (Process.st_data st))
                   (<[i := Spec.attempt c r]> (chunks (Process.st_data st))) in
    process_one st i =
    Some (Process.RunState d' t
            (Process.World
               (<[json_file := JsonFile d']> (Process.fs (Process.st_world st)))
               s
               (Process.out (Process.st_world st) ++
                [Process.Current (Z.of_nat i) preview;
                 Process.ApiCall model
                   (replace prompt_template (lit "{text}") (text c));
                 Process.Saved json_file d']))).
Proof.
  intros Hi Hr. unfold Process.process_one. rewrite Hi.
  cbn [mbind option_bind]. unfold Process.process_chunk, Process.emit.
  cbn [Process.svc Process.fs Process.out]. rewrite Hr.
  destruct r as [[[|a output]|]|msg];
    cbn [truthy Spec.attempt]; unfold Process.save;
    cbn [Process.svc Process.fs Process.out];
    eexists _, _; rewrite <- !app_assoc; reflexivity.
Qed.

Lemma process_one_total st i c :
  chunks (Process.st_data st) !! i = Some c ->
  exists st', process_one st i = Some st'.
Proof.
  intros Hi.
  destruct (create (Process.svc (Process.st_world st)) model
              (replace prompt_template (lit "{text}") (text c))) as [r s] eqn:Hr.
  destruct (process_one_eq st i c r s Hi Hr) as (t & preview & H).
  eexists. exact H.
Qed.

Lemma process_one_length st i st' :
  process_one st i = Some st' ->
  length (chunks (Process.st_data st')) = length (chunks (Process.st_data st)).
Proof.
  intros H.
  destruct (chunks (Process.st_data st) !! i) as [c|] eqn:Hi.
  - destruct (create (Process.svc (Process.st_world st)) model
                (replace prompt_template (lit "{text}") (text c))) as [r s] eqn:Hr.
    destruct (process_one_eq st i c r s Hi Hr) as (t & preview & E).
    rewrite E in H. injection H as <-. simpl. apply length_insert.
  - unfold Process.process_one in H. rewrite Hi in H. discriminate.
Qed.

(** Rule for the processing loop: it returns for every list of in-range
    positions, and any relation closed under one iteration followed by
    the rest holds between the states before and after. *)
Lemma process_loop_rule
    (R : list nat -> Process.run_state -> Process.run_state -> Prop) :
  (forall st, R [] st st) ->
  (forall i rest st st' st'',
      process_one st i = Some st' -> R rest st' st'' -> R (i :: rest) st st'') ->
  forall pending st,
    (forall i, i ∈ pending -> (i < length (chunks (Process.st_data st)))%nat) ->
    exists st', process_loop pending st = Some st' /\ R pending st st'.
Proof.
  intros Hnil Hcons pending.
  induction pending as [|i rest IH]; intros st Hrange.
  - exists st. split; [reflexivity | apply Hnil].
  - assert (Hi : (i < length (chunks (Process.st_data st)))%nat)
      by (apply Hrange; left).
    apply lookup_lt_is_Some_2 in Hi as [c Hc].
    destruct (process_one_total st i c Hc) as [st1 H1].
    destruct (IH st1) as (st2 & H2 & HR).
    + intros j Hj. rewrite (process_one_length _ _ _ H1).
      apply Hrange. right. assumption.
    + exists st2. split.
      * cbn [Process.process_loop]. rewrite H1. simpl. exact H2.
      * eapply Hcons; eassumption.
Qed.

(** C4, as the code has it. One attempt on the chunk at position [i]:
    a non-empty service output makes the chunk done, with that output as
    result and the error field null; a raised failure makes it an error
    chunk carrying the failure text, and an empty or null output makes
    it an error chunk with a null error field, the result staying as it
    was in both cases. Whatever happened, the updated job is written to
    the job file as the last effect of the attempt, and the loop moves to
    the next position only from that state. *)
Theorem process_attempt_outcome (st : Process.run_state) (i : nat) (c : chunk)
    (r : Process.reply) (s : Svc) :
  chunks (Process.st_data st) !! i = Some c ->
  create (Process.svc (Process.st_world st)) model
         (replace prompt_template (lit "{text}") (text c)) = (r, s) ->
  exists st' c' preview,
    process_one st i = Some st' /\
    (forall rest, process_loop (i :: rest) st = process_loop rest st') /\
    chunks (Process.st_data st') = <[i := c']> (chunks (Process.st_data st)) /\
    (forall a output,
        r = Process.Completion (Some (a :: output)) ->
        c' = Chunk_ (index c) (text c) Done (Some (a :: output)) (Some None)) /\
    (forall msg,
        r = Process.Raised msg ->
        c' = Chunk_ (index c) (text c) Error (result c) (Some (Some msg))) /\
    (r = Process.Completion None \/ r = Process.Completion (Some []) ->
     c' = Chunk_ (index c) (text c) Error (result c) (Some None)) /\
    Process.out (Process.st_world st') =
      Process.out (Process.st_world st) ++
      [Process.Current (Z.of_nat i) preview;
       Process.ApiCall model (replace prompt_template (lit "{text}") (text c));
       Process.Saved json_file (Process.st_data st')] /\
    Process.fs (Process.st_world st') !! json_file
      = Some (JsonFile (Process.st_data st')).
Proof.
  intros Hi Hr.
  destruct (process_one_eq st i c r s Hi Hr) as (t & preview & E).
  cbv zeta in E.
  eexists _, (Spec.attempt c r), preview. split; [exact E|].
  split; [|split; [reflexivity|]].
  { intros rest. cbn [Process.process_loop]. rewrite E. reflexivity. }
  split; [intros a output ->; reflexivity|].
  split; [intros msg ->; reflexivity|].
  split; [intros [-> | ->]; reflexivity|].
  split; [reflexivity|].
  cbn [Process.st_world Process.fs Process.st_data].
  apply lookup_insert_eq.
Qed.

End ProcessRun.

Lemma process_attempt_outcome_witness :
  let st := Sample.start_state 0%nat (Sample.job [Sample.fresh 0 "abc"]) in
  (chunks (Process.st_data st) !! 0%nat = Some (Sample.fresh 0 "abc") /\
   Sample.echo 0%nat Sample.gpt (lit "Fix: abc")
   = (Process.Completion (Some (lit "Fix: abc")), 1%nat)) /\
  exists st',
    Process.process_one Sample.echo Sample.job_file Sample.template Sample.gpt st 0
    = Some st' /\
    chunks (Process.st_data st')
    = [Chunk_ 0 (lit "abc") Done (Some (lit "Fix: abc")) (Some None)].
Proof.
  intros st.
  assert (H1 : chunks (Process.st_data st) !! 0%nat = Some (Sample.fresh 0 "abc"))
    by reflexivity.
  assert (H2 : Sample.echo (Process.svc (Process.st_world st)) Sample.gpt
                 (replace Sample.template (lit "{text}")
                          (text (Sample.fresh 0 "abc")))
               = (Process.Completion (Some (lit "Fix: abc")), 1%nat))
    by reflexivity.
  split; [split; [exact H1 | reflexivity]|].
  destruct (process_attempt_outcome Sample.echo Sample.job_file Sample.template
              Sample.gpt st 0 _ _ _ H1 H2)
    as (st' & c' & preview & Hone & _ & Hchunks & Hdone & _).
  exists st'. split; [exact Hone|].
  rewrite Hchunks, (Hdone _ _ eq_refl). reflexivity.
Defined.

(** C4 counterexample: the service call succeeds, returning an empty
    text, and the chunk is recorded as an error with a null error field
    instead of being marked done. *)
Lemma process_success_not_marked_done :
  let st := Sample.start_state tt (Sample.job [Sample.fresh 0 "abc"]) in
  Sample.silent tt Sample.gpt (lit "Fix: abc")
  = (Process.Completion (Some []), tt) /\
  (st' ← Process.process_one Sample.silent Sample.job_file Sample.template
           Sample.gpt st 0;
   chunks (Process.st_data st') !! 0%nat)
  = Some (Chunk_ 0 (lit "abc") Error None (Some None)) /\
  ~ (exists st' c',
        Process.process_one Sample.silent Sample.job_file Sample.template
          Sample.gpt st 0 = Some st' /\
        chunks (Process.st_data st') !! 0%nat = Some c' /\
        status_of c' = Done).
Proof.
  intros st. split; [reflexivity|]. split; [reflexivity|].
  intros (st' & c' & Hone & Hc & Hdone).
  assert (E : (st' ← Process.process_one Sample.silent Sample.job_file
                       Sample.template Sample.gpt st 0;
               chunks (Process.st_data st') !! 0%nat)
              = Some (Chunk_ 0 (lit "abc") Error None (Some None)))
    by reflexivity.
  rewrite Hone in E. simpl in E. rewrite Hc in E.
  injection E as ->. discriminate.
Qed.

(** ** Which chunks a run attempts *)

Lemma scan_eq cs i pending done_count :
  exists n,
    Process.scan cs i pending done_count
    = (pending ++ Spec.not_done_from cs i, n).
Proof.
  revert i pending done_count.
  induction cs as [|c cs IH]; intros i pending done_count; simpl.
  - exists done_count. rewrite app_nil_r. reflexivity.
  - case_bool_decide.
    + apply IH.
    + destruct (IH (S i) (pending ++ [i]) done_count) as [n Hn].
      exists n. rewrite Hn, <- app_assoc. reflexivity.
Qed.

Lemma not_done_from_elem cs i j :
  j ∈ Spec.not_done_from cs i <->
  exists k c, j = (i + k)%nat /\ cs !! k = Some c /\ status_of c <> Done.
Proof.
  revert i. induction cs as [|c cs IH]; intros i; simpl.
  - split; [intros H; inversion H | intros (k & c & _ & H & _); discriminate].
  - assert (Hshift :
      (exists k c0, j = (S i + k)%nat /\ cs !! k = Some c0 /\ status_of c0 <> Done)
      <-> (exists k c0, j = (i + S k)%nat /\ (c :: cs) !! S k = Some c0 /\
                        status_of c0 <> Done)).
    { split; intros (k & c0 & -> & H); exists k, c0; (split; [lia | exact H]). }
    case_bool_decide as Hd.
    + rewrite IH, Hshift. split.
      * intros (k & c0 & H). exists (S k), c0. exact H.
      * intros ([|k] & c0 & Hj & Hk & Hs).
        -- simpl in Hk. injection Hk as <-. contradiction.
        -- exists k, c0. auto.
    + rewrite elem_of_cons, IH, Hshift. split.
      * intros [-> | (k & c0 & H)].
        -- exists 0%nat, c. split; [lia|]. split; [reflexivity | exact Hd].
        -- exists (S k), c0. exact H.
      * intros ([|k] & c0 & Hj & Hk & Hs).
        -- left. lia.
        -- right. exists k, c0. auto.
Qed.

Lemma not_done_from_sorted cs i : StronglySorted lt (Spec.not_done_from cs i).
Proof.
  revert i. induction cs as [|c cs IH]; intros i; simpl.
  - constructor.
  - case_bool_decide; [apply IH|].
    constructor; [apply IH|].
    apply Forall_forall. intros j Hj.
    apply not_done_from_elem in Hj as (k & _ & -> & _). lia.
Qed.

Lemma prompt_at_ext tpl (cs cs' : list chunk) i :
  text <$> cs = text <$> cs' ->
  Trace.prompt_at tpl cs i = Trace.prompt_at tpl cs' i.
Proof.
  intros H. unfold Trace.prompt_at. f_equal.
  assert (E : (text <$> cs) !! i = (text <$> cs') !! i) by (rewrite H; reflexivity).
  rewrite !list_lookup_fmap in E.
  destruct (cs !! i), (cs' !! i); simpl in *; congruence.
Qed.

Lemma attempt_text c r : text (Spec.attempt c r) = text c.
Proof. destruct r as [[[|a o]|]|msg]; reflexivity. Qed.

Section ProcessTrace.

Context {Svc : Type}.
Variable create : Svc -> str -> str -> Process.reply * Svc.
Variables json_file prompt_template model : str.

Abbreviation run_one := (Process.process_one create json_file prompt_template model).
Abbreviation run_loop := (Process.process_loop create json_file prompt_template model).

(** Every iteration that returns is an attempt on an existing chunk. *)
Lemma process_one_inv st i st' :
  run_one st i = Some st' ->
  exists c r s t preview,
    chunks (Process.st_data st) !! i = Some c /\
    create (Process.svc (Process.st_world st)) model
           (replace prompt_template (lit "{text}") (text c)) = (r, s) /\
    let d' := Data (meta_of (Process.st_data st))
                   (<[i := Spec.attempt c r]> (chunks (Process.st_data st))) in
    st' = Process.RunState d' t
            (Process.World
               (<[json_file := JsonFile d']> (Process.fs (Process.st_world st)))
               s
               (Process.out (Process.st_world st) ++
                [Process.Current (Z.of_nat i) preview;
                 Process.ApiCall model
                   (replace prompt_template (lit "{text}") (text c));
                 Process.Saved json_file d'])).
Proof.
  intros H.
  destruct (chunks (Process.st_data st) !! i) as [c|] eqn:Hi.
  - destruct (create (Process.svc (Process.st_world st)) model
                (replace prompt_template (lit "{text}") (text c))) as [r s] eqn:Hr.
    destruct (process_one_eq create json_file prompt_template model st i c r s Hi Hr)
      as (t & preview & E).
    rewrite E in H. injection H as <-.
    exists c, r, s, t, preview. split; [reflexivity|]. split; [exact Hr | reflexivity].
  - unfold Process.process_one in H. rewrite Hi in H. discriminate.
Qed.

Lemma process_loop_trace pending st :
  (forall i, i ∈ pending -> (i < length (chunks (Process.st_data st)))%nat) ->
  exists st',
    run_loop pending st = Some st' /\
    Trace.loop_trace prompt_template model pending st st'.
Proof.
  apply (process_loop_rule create json_file prompt_template model
           (Trace.loop_trace prompt_template model)).
  - intros st0. split; [reflexivity|]. split; [reflexivity|].
    exists []. rewrite app_nil_r. repeat split; reflexivity.
  - intros i rest st0 st1 st2 Hone (Htext & Hkeep & evs & Hout & Hatt & Hreq).
    apply process_one_inv in Hone
      as (c & r & s & t & preview & Hc & Hr & ->).
    cbn [Process.st_data Process.st_world Process.out chunks] in *.
    assert (Htext1 :
      text <$> <[i := Spec.attempt c r]> (chunks (Process.st_data st0))
      = text <$> chunks (Process.st_data st0)).
    { rewrite list_fmap_insert, attempt_text. apply list_insert_id.
      rewrite list_lookup_fmap, Hc. reflexivity. }
    split; [rewrite Htext; exact Htext1|]. split.
    + intros j Hj. rewrite Hkeep by (intros Hin; apply Hj; right; exact Hin).
      apply list_lookup_insert_ne. intros ->. apply Hj. left.
    + eexists. split; [rewrite Hout, <- app_assoc; reflexivity|].
      split.
      * unfold Trace.attempted in *. rewrite omap_app, Hatt. reflexivity.
      * unfold Trace.requests in *. rewrite omap_app, Hreq. cbn [omap list_omap app].
        rewrite fmap_cons. f_equal.
        -- unfold Trace.prompt_at. rewrite Hc. reflexivity.
        -- apply list_fmap_ext. intros k j _. f_equal.
           apply prompt_at_ext. exact Htext1.
Qed.

End ProcessTrace.

Section ProcessChunks.

Context {Svc : Type}.
Variable create : Svc -> str -> str -> Process.reply * Svc.
Variables json_file prompt_template model : str.

(** C2. A run on a job file, with the API key set, returns 0 and
    attempts exactly the positions whose chunk is not done (pending and
    error alike), in ascending order, sending one request for each; when
    there is no such position it reports that everything is processed and
    touches neither the service nor the file system. *)
Theorem process_chunks_attempts_not_done (e : Process.env)
    (w : @Process.world Svc) (d : data) :
  truthy (Process.OPENAI_KEY e) = true ->
  Process.fs w !! json_file = Some (JsonFile d) ->
  exists w' evs pending,
    Process.process_chunks create e json_file prompt_template model w
    = Some (0, w') /\
    Process.out w' = Process.out w ++ evs /\
    StronglySorted lt pending /\
    (forall i, i ∈ pending <->
               exists c, chunks d !! i = Some c /\ status_of c <> Done) /\
    Trace.attempted evs = Z.of_nat <$> pending /\
    Trace.requests evs =
      (fun i => (model, Trace.prompt_at prompt_template (chunks d) i))
        <$> pending /\
    (pending = [] ->
     Process.fs w' = Process.fs w /\ Process.svc w' = Process.svc w /\
     exists n,
       evs = [Process.Starting json_file;
              Process.Found (len (chunks d)) 0 n;
              Process.AllProcessed]).
Proof.
  intros Hkey Hfile.
  assert (Hmem : forall i, i ∈ Spec.not_done_from (chunks d) 0 <->
                 exists c, chunks d !! i = Some c /\ status_of c <> Done).
  { intros i. rewrite not_done_from_elem. split.
    - intros (k & c & -> & H). exists c. exact H.
    - intros (c & H). exists i, c. split; [reflexivity | exact H]. }
  unfold Process.process_chunks. rewrite Hkey, Hfile. cbn [negb].
  destruct (scan_eq (chunks d) 0 [] 0) as [n ->]. cbn [app].
  destruct (Spec.not_done_from (chunks d) 0) as [|i rest] eqn:Hpending.
  - eexists _, _, []. split; [reflexivity|].
    split; [unfold Process.emit; cbn [Process.out]; rewrite <- !app_assoc; reflexivity|].
    split; [constructor|]. split; [exact Hmem|].
    split; [reflexivity|]. split; [reflexivity|].
    intros _. split; [reflexivity|]. split; [reflexivity|].
    exists n. reflexivity.
  - set (w1 := Process.emit _ (Process.emit _ w)).
    set (t := Process.Tracker _ _ _ _ _).
    destruct (process_loop_trace create json_file prompt_template model
                (i :: rest) (Process.RunState d t w1))
      as (st' & Hloop & _ & _ & evs & Hout & Hatt & Hreq).
    { intros j Hj. apply Hmem in Hj as (c & Hc & _).
      apply lookup_lt_Some in Hc. exact Hc. }
    rewrite Hloop. cbn [mbind option_bind].
    eexists _, _, (i :: rest). split; [reflexivity|]. split.
    { unfold Process.emit at 1. cbn [Process.out]. rewrite Hout.
      unfold w1, Process.emit. cbn [Process.out Process.st_world].
      rewrite <- !app_assoc. reflexivity. }
    split; [rewrite <- Hpending; apply not_done_from_sorted|].
    split; [exact Hmem|].
    cbn [Process.st_data] in Hreq.
    split.
    + unfold Trace.attempted in *.
      rewrite !omap_app, Hatt. cbn [omap list_omap app].
      rewrite app_nil_r. reflexivity.
    + split; [|intros Hnil; discriminate].
      unfold Trace.requests in *.
      rewrite !omap_app, Hreq. cbn [omap list_omap app].
      rewrite app_nil_r. reflexivity.
Qed.

End ProcessChunks.

Lemma process_chunks_attempts_not_done_witness :
  let w := Sample.world_with 0%nat Sample.mixed in
  (truthy (Process.OPENAI_KEY Sample.keyed) = true /\
   Process.fs w !! Sample.job_file = Some (JsonFile Sample.mixed)) /\
  exists w' evs pending,
    Process.process_chunks Sample.echo Sample.keyed Sample.job_file
      Sample.template Sample.gpt w = Some (0, w') /\
    Process.out w' = Process.out w ++ evs /\
    StronglySorted lt pending /\
    (forall i, i ∈ pending <->
               exists c, chunks Sample.mixed !! i = Some c /\ status_of c <> Done) /\
    Trace.attempted evs = Z.of_nat <$> pending /\
    Trace.requests evs =
      (fun i => (Sample.gpt,
                 Trace.prompt_at Sample.template (chunks Sample.mixed) i))
        <$> pending /\
    (pending = [] ->
     Process.fs w' = Process.fs w /\ Process.svc w' = Process.svc w /\
     exists n,
       evs = [Process.Starting Sample.job_file;
              Process.Found (len (chunks Sample.mixed)) 0 n;
              Process.AllProcessed]).
Proof.
  intros w.
  assert (H1 : truthy (Process.OPENAI_KEY Sample.keyed) = true) by reflexivity.
  assert (H2 : Process.fs w !! Sample.job_file = Some (JsonFile Sample.mixed))
    by apply lookup_singleton_eq.
  split; [split; assumption|].
  exact (process_chunks_attempts_not_done Sample.echo Sample.job_file
           Sample.template Sample.gpt Sample.keyed w Sample.mixed H1 H2).
Defined.

(** The same run, evaluated: positions 1 and 2 are attempted, in that
    order, and position 0, which is done, is not. *)
Example process_mixed_run :
  (r ← Process.process_chunks Sample.echo Sample.keyed Sample.job_file
         Sample.template Sample.gpt (Sample.world_with 0%nat Sample.mixed);
   Some (r.1, Trace.attempted (Process.out r.2), Trace.requests (Process.out r.2),
         Process.svc r.2))
  = Some (0, [1; 2],
          [(Sample.gpt, lit "Fix: two "); (Sample.gpt, lit "Fix: three")],
          2%nat).
Proof. vm_compute. reflexivity. Qed.

(** A second run on a finished job makes no request. *)
Example process_complete_run :
  (r ← Process.process_chunks Sample.echo Sample.keyed Sample.job_file
         Sample.template Sample.gpt (Sample.world_with 0%nat Sample.complete);
   Some (r.1, Process.out r.2, Process.svc r.2))
  = Some (0, [Process.Starting Sample.job_file; Process.Found 2 0 2;
              Process.AllProcessed], 0%nat).
Proof. vm_compute. reflexivity. Qed.

(** ** The loops of rebuild *)

Lemma classify_eq cs dn er pd :
  Rebuild.classify cs dn er pd =
  (dn ++ filter (fun c => status_of c = Done) cs,
   er ++ (index <$> filter (fun c => status_of c = Error) cs),
   pd ++ (index <$> filter (fun c => status_of c = Pending) cs)).
Proof.
  revert dn er pd. induction cs as [|c cs IH]; intros dn er pd.
  - simpl. rewrite !app_nil_r. reflexivity.
  - cbn [Rebuild.classify]. rewrite !filter_cons.
    destruct (status_of c) eqn:Hs; simpl; rewrite IH;
      rewrite <- ?app_assoc; reflexivity.
Qed.

Lemma insert_by_index_perm c l : Rebuild.insert_by_index c l ≡ₚ c :: l.
Proof.
  induction l as [|d l IH]; simpl; [reflexivity|].
  destruct (index c <=? index d); [reflexivity|].
  rewrite IH. apply Permutation_swap.
Qed.

Lemma sort_by_index_perm l : Rebuild.sort_by_index l ≡ₚ l.
Proof.
  induction l as [|c l IH]; simpl; [reflexivity|].
  rewrite insert_by_index_perm, IH. reflexivity.
Qed.

Lemma insert_by_index_sorted c l :
  StronglySorted Spec.by_index l ->
  StronglySorted Spec.by_index (Rebuild.insert_by_index c l).
Proof.
  induction l as [|d l IH]; intros Hs; simpl.
  - constructor; [constructor | constructor].
  - apply StronglySorted_inv in Hs as [Hl Hd].
    destruct (Z.leb_spec (index c) (index d)) as [Hle | Hgt].
    + constructor; [constructor; assumption|].
      constructor; [exact Hle|].
      eapply Forall_impl; [exact Hd|].
      intros x Hx. unfold Spec.by_index in *. lia.
    + constructor; [apply IH; exact Hl|].
      rewrite insert_by_index_perm. constructor; [|exact Hd].
      unfold Spec.by_index. lia.
Qed.

Lemma sort_by_index_sorted l : StronglySorted Spec.by_index (Rebuild.sort_by_index l).
Proof.
  induction l as [|c l IH]; simpl; [constructor|].
  apply insert_by_index_sorted. exact IH.
Qed.

(** The sort is stable, so a list already in index order is returned
    unchanged. *)
Lemma sort_by_index_sorted_id l :
  StronglySorted Spec.by_index l -> Rebuild.sort_by_index l = l.
Proof.
  induction l as [|c l IH]; intros Hs; simpl; [reflexivity|].
  apply StronglySorted_inv in Hs as [Hl Hc].
  rewrite IH by exact Hl.
  destruct l as [|d l]; [reflexivity|]. simpl.
  apply Forall_cons in Hc as [Hcd _].
  destruct (Z.leb_spec (index c) (index d)); [reflexivity|].
  unfold Spec.by_index in Hcd. lia.
Qed.

Lemma concat_results_eq l acc :
  Rebuild.concat_results l acc
  = acc ++ concat (Spec.output_of <$> l).
Proof.
  revert acc. induction l as [|c l IH]; intros acc.
  - simpl. rewrite app_nil_r. reflexivity.
  - rewrite fmap_cons. cbn [concat Rebuild.concat_results].
    unfold Spec.output_of at 1.
    destruct (result c) as [[|a r]|]; cbn [truthy from_option id]; rewrite IH.
    + reflexivity.
    + rewrite <- app_assoc. reflexivity.
    + reflexivity.
Qed.

(** ** The invariant of the job *)

Lemma attempt_done c r :
  status_of (Spec.attempt c r) = Done ->
  truthy (result (Spec.attempt c r)) = true.
Proof. destruct r as [[[|a o]|]|msg]; simpl; intros H; congruence. Qed.

Lemma done_has_result_attempt d i c r :
  Spec.done_has_result d ->
  Spec.done_has_result
    (Data (meta_of d) (<[i := Spec.attempt c r]> (chunks d))).
Proof.
  intros Hd c0 Hin Hdone. cbn [chunks] in Hin.
  apply list_elem_of_lookup in Hin as [j Hj].
  apply list_lookup_insert_Some in Hj as [(_ & <- & _) | (_ & Hj)].
  - apply attempt_done. exact Hdone.
  - apply Hd; [|exact Hdone]. apply list_elem_of_lookup. exists j. exact Hj.
Qed.

Lemma jobs_ok_insert fs path d :
  Spec.jobs_ok fs -> Spec.done_has_result d ->
  Spec.jobs_ok (<[path := JsonFile d]> fs).
Proof.
  intros Hfs Hd p d' H.
  destruct (decide (path = p)) as [->|Hne].
  - rewrite lookup_insert_eq in H. injection H as <-. exact Hd.
  - rewrite lookup_insert_ne in H by exact Hne. eapply Hfs. exact H.
Qed.

(** A job as [chunk.py] creates it has no done chunk, so it satisfies
    the invariant. *)
Lemma create_chunked_file_ok (stem : str -> str) (fs fs' : gmap str file)
    (input_file output_file : str) (size : Z) :
  Chunk.create_chunked_file stem fs input_file size = Some (output_file, fs') ->
  Spec.jobs_ok fs -> Spec.jobs_ok fs'.
Proof.
  unfold Chunk.create_chunked_file. intros H Hfs.
  destruct (fs !! input_file) as [[text|d]|]; try discriminate.
  destruct (Chunk.chunk_text text size) as [segs|]; [|discriminate].
  cbn [mbind option_bind] in H. injection H as _ <-.
  apply jobs_ok_insert; [exact Hfs|].
  intros c Hin Hdone. cbn [chunks] in Hin.
  apply list_elem_of_lookup in Hin as [i Hi].
  rewrite list_lookup_imap in Hi.
  destruct (segs !! i); [|discriminate].
  injection Hi as <-. discriminate.
Qed.

Section ProcessInvariant.

Context {Svc : Type}.
Variable create : Svc -> str -> str -> Process.reply * Svc.

(** The invariant through the loop: on the job in memory, on every file
    and on every snapshot saved on the way. *)
Lemma process_loop_invariant json_file prompt_template model pending
    (st st' : @Process.run_state Svc) :
  Process.process_loop create json_file prompt_template model pending st
  = Some st' ->
  Spec.done_has_result (Process.st_data st) ->
  Spec.jobs_ok (Process.fs (Process.st_world st)) ->
  Spec.done_has_result (Process.st_data st') /\
  Spec.jobs_ok (Process.fs (Process.st_world st')) /\
  exists evs,
    Process.out (Process.st_world st')
    = Process.out (Process.st_world st) ++ evs /\
    forall p d, Process.Saved p d ∈ evs -> Spec.done_has_result d.
Proof.
  revert st. induction pending as [|i rest IH]; intros st Hloop Hd Hfs.
  - injection Hloop as <-. split; [exact Hd|]. split; [exact Hfs|].
    exists []. rewrite app_nil_r. split; [reflexivity|].
    intros p d H. inversion H.
  - cbn [Process.process_loop] in Hloop.
    destruct (Process.process_one create json_file prompt_template model st i)
      as [st1|] eqn:Hone; [|discriminate].
    cbn [mbind option_bind] in Hloop.
    apply process_one_inv in Hone as (c & r & s & t & preview & Hc & Hr & ->).
    pose proof (done_has_result_attempt _ i c r Hd) as Hd1.
    destruct (IH _ Hloop Hd1) as (Hd' & Hfs' & evs & Hout & Hsaved).
    { cbn [Process.st_world Process.fs]. apply jobs_ok_insert; assumption. }
    split; [exact Hd'|]. split; [exact Hfs'|].
    cbn [Process.st_world Process.out] in Hout.
    eexists. split; [rewrite Hout, <- app_assoc; reflexivity|].
    intros p d0 Hin. apply elem_of_app in Hin as [Hin | Hin].
    + apply elem_of_cons in Hin as [Hin | Hin]; [discriminate|].
      apply elem_of_cons in Hin as [Hin | Hin]; [discriminate|].
      apply list_elem_of_singleton in Hin. injection Hin as -> ->. exact Hd1.
    + eapply Hsaved. exact Hin.
Qed.

(** The invariant through a whole run of the entry point. *)
Lemma process_main_invariant (e : Process.env)
    (json_file prompt model_arg : str) (w w' : @Process.world Svc) (code : Z) :
  Spec.jobs_ok (Process.fs w) ->
  Process.main create e json_file prompt model_arg w = Some (code, w') ->
  Spec.jobs_ok (Process.fs w') /\
  exists evs,
    Process.out w' = Process.out w ++ evs /\
    forall p d, Process.Saved p d ∈ evs -> Spec.done_has_result d.
Proof.
  intros Hfs Hmain. unfold Process.main in Hmain.
  set (model := if truthy (Process.MODEL_NAME e) then _ else _) in Hmain.
  case_bool_decide as Hnone.
  { injection Hmain as <- <-. split; [exact Hfs|].
    eexists. split; [reflexivity|].
    intros p d H. apply list_elem_of_singleton in H. discriminate. }
  unfold Process.process_chunks in Hmain.
  destruct (truthy (Process.OPENAI_KEY e)); cbn [negb] in Hmain.
  2:{ injection Hmain as <- <-. split; [exact Hfs|].
      eexists. split; [reflexivity|].
      intros p d H. apply list_elem_of_singleton in H. discriminate. }
  destruct (Process.fs w !! json_file) as [[text|d]|] eqn:Hfile; try discriminate.
  destruct (Process.scan (chunks d) 0 [] 0) as [pending done_count].
  destruct pending as [|i rest].
  { injection Hmain as <- <-. split; [exact Hfs|].
    unfold Process.emit. cbn [Process.out]. rewrite <- !app_assoc.
    eexists. split; [reflexivity|].
    intros p d0 H. cbn [app] in H.
    repeat (apply elem_of_cons in H as [H | H]; [discriminate|]). inversion H. }
  match type of Hmain with
  | context [Process.process_loop _ _ _ _ ?l ?st] =>
      destruct (Process.process_loop create json_file prompt model l st)
        as [st'|] eqn:Hloop; [|discriminate]
  end.
  cbn [mbind option_bind] in Hmain. injection Hmain as <- <-.
  apply process_loop_invariant in Hloop as (_ & Hfs' & evs & Hout & Hsaved).
  - split; [exact Hfs'|].
    unfold Process.emit in *. cbn [Process.out Process.fs Process.st_world] in *.
    rewrite Hout, <- !app_assoc. eexists. split; [reflexivity|].
    intros p d0 H. cbn [app] in H.
    apply elem_of_cons in H as [H | H]; [discriminate|].
    apply elem_of_cons in H as [H | H]; [discriminate|].
    apply elem_of_app in H as [H | H]; [eapply Hsaved; exact H|].
    apply list_elem_of_singleton in H. discriminate.
  - cbn [Process.st_data]. eapply Hfs. exact Hfile.
  - exact Hfs.
Qed.

(** C10. A processing run keeps the invariant "a done chunk has a
    non-empty result": if it holds of every job file before the run, it
    holds of every job file after it and of every snapshot the run
    saved; so the result check of the rebuild loop succeeds on every
    chunk that loop visits. *)
Theorem process_keeps_done_has_result (e : Process.env)
    (json_file prompt model_arg : str) (w w' : @Process.world Svc) (code : Z) :
  Spec.jobs_ok (Process.fs w) ->
  Process.main create e json_file prompt model_arg w = Some (code, w') ->
  Spec.jobs_ok (Process.fs w') /\
  (exists evs,
      Process.out w' = Process.out w ++ evs /\
      forall p d, Process.Saved p d ∈ evs -> Spec.done_has_result d) /\
  (forall path d c,
      Process.fs w' !! path = Some (JsonFile d) ->
      c ∈ Rebuild.sort_by_index
            (filter (fun c => status_of c = Done) (chunks d)) ->
      truthy (result c) = true).
Proof.
  intros Hfs Hmain.
  destruct (process_main_invariant e json_file prompt model_arg w w' code
              Hfs Hmain) as [Hfs' Hsaved].
  split; [exact Hfs'|]. split; [exact Hsaved|].
  intros path d c Hfile Hin.
  rewrite sort_by_index_perm in Hin.
  apply list_elem_of_filter in Hin as [Hdone Hin].
  exact (Hfs' path d Hfile c Hin Hdone).
Qed.

End ProcessInvariant.

Lemma sample_mixed_ok : Spec.jobs_ok {[ Sample.job_file := JsonFile Sample.mixed ]}.
Proof.
  intros path d H. apply lookup_singleton_Some in H as [_ H].
  injection H as <-. intros c Hin Hdone. cbn in Hin.
  repeat (apply elem_of_cons in Hin as [-> | Hin]; [try discriminate; reflexivity|]).
  inversion Hin.
Qed.

Lemma process_keeps_done_has_result_witness :
  let w := Sample.world_with 0%nat Sample.mixed in
  Spec.jobs_ok (Process.fs w) /\
  exists code w',
    Process.main Sample.flaky Sample.keyed Sample.job_file Sample.template
      Sample.gpt w = Some (code, w') /\
    Spec.jobs_ok (Process.fs w') /\
    (exists evs,
        Process.out w' = Process.out w ++ evs /\
        forall p d, Process.Saved p d ∈ evs -> Spec.done_has_result d) /\
    (forall path d c,
        Process.fs w' !! path = Some (JsonFile d) ->
        c ∈ Rebuild.sort_by_index
              (filter (fun c => status_of c = Done) (chunks d)) ->
        truthy (result c) = true).
Proof.
  intros w.
  assert (Hok : Spec.jobs_ok (Process.fs w)) by exact sample_mixed_ok.
  split; [exact Hok|].
  destruct (Process.main Sample.flaky Sample.keyed Sample.job_file
              Sample.template Sample.gpt w) as [[code w']|] eqn:Hmain.
  - exists code, w'. split; [reflexivity|].
    exact (process_keeps_done_has_result Sample.flaky Sample.keyed
             Sample.job_file Sample.template Sample.gpt w w' code Hok Hmain).
  - vm_compute in Hmain. discriminate.
Defined.

(** ** The rebuild entry point *)

Ltac list_mem :=
  repeat first [apply list_elem_of_here | apply list_elem_of_further].

Ltac list_not_mem H :=
  repeat (apply elem_of_cons in H as [H | H]; [discriminate|]); inversion H.

(** C5. Rebuild on a job file returns 1 with the "nothing to rebuild"
    message, writing nothing, exactly when the job has no done chunk.
    Otherwise it returns 0 and writes the results of the done chunks,
    taken in ascending index order, concatenated. In both cases it prints
    the counts, and the indices of the error chunks and of the pending
    chunks whenever there are any. *)
Theorem rebuild_chunks_correct (stem : str -> str) (fs : gmap str file)
    (json_file : str) (output_file : option str) (d : data) :
  fs !! json_file = Some (JsonFile d) ->
  let dones := filter (fun c => status_of c = Done) (chunks d) in
  let errors := index <$> filter (fun c => status_of c = Error) (chunks d) in
  let pendings := index <$> filter (fun c => status_of c = Pending) (chunks d) in
  exists code fs' out,
    Rebuild.rebuild_chunks stem fs json_file output_file = Some (code, fs', out) /\
    (code = 1 <-> dones = []) /\
    (Rebuild.NothingToRebuild ∈ out <-> dones = []) /\
    (dones = [] -> fs' = fs) /\
    (dones <> [] ->
     code = 0 /\
     exists path sorted,
       sorted ≡ₚ dones /\
       StronglySorted Spec.by_index sorted /\
       fs' = <[path := TextFile (concat (Spec.output_of <$> sorted))]> fs) /\
    Rebuild.Statistics (len (chunks d)) (len dones) (len errors) (len pendings)
      ∈ out /\
    (errors <> [] -> Rebuild.WarnErrors (len errors) errors ∈ out) /\
    (pendings <> [] -> Rebuild.WarnPending (len pendings) pendings ∈ out).
Proof.
  intros Hfile dones errors pendings.
  unfold Rebuild.rebuild_chunks. rewrite Hfile, classify_eq. cbn [app].
  fold dones errors pendings.
  destruct dones as [|c0 dones'] eqn:Hd.
  - cbn [Rebuild.nonempty negb].
    eexists _, _, _. split; [reflexivity|].
    split; [split; reflexivity|].
    split; [split; [reflexivity|]; intros _; apply elem_of_app; right; list_mem|].
    split; [reflexivity|]. split; [intros H; contradiction|].
    destruct errors, pendings; cbn [Rebuild.say_if Rebuild.nonempty app];
      (split; [list_mem|]); (split; intros H; [try contradiction | try contradiction]);
      list_mem.
  - cbn [Rebuild.nonempty negb].
    eexists _, _, _. split; [reflexivity|].
    split; [split; intros H; discriminate|].
    split.
    { split; [|intros H; discriminate]. intros H. exfalso.
      destruct errors, pendings;
        cbn [Rebuild.say_if Rebuild.nonempty app orb] in H; list_not_mem H. }
    split; [intros H; discriminate|].
    split.
    { intros _. split; [reflexivity|]. eexists _, _.
      split; [apply sort_by_index_perm|].
      split; [apply sort_by_index_sorted|].
      rewrite concat_results_eq. reflexivity. }
    destruct errors, pendings; cbn [Rebuild.say_if Rebuild.nonempty app orb];
      (split; [list_mem|]); (split; intros H; [try contradiction | try contradiction]);
      list_mem.
Qed.

Lemma rebuild_chunks_correct_witness :
  Sample.disk Sample.gapped !! Sample.job_file = Some (JsonFile Sample.gapped) /\
  exists code fs' out,
    Rebuild.rebuild_chunks Sample.stem (Sample.disk Sample.gapped)
      Sample.job_file None = Some (code, fs', out) /\
    code = 0 /\
    Rebuild.WarnErrors 1 [1] ∈ out.
Proof.
  assert (H : Sample.disk Sample.gapped !! Sample.job_file
              = Some (JsonFile Sample.gapped)) by apply lookup_singleton_eq.
  split; [exact H|].
  destruct (rebuild_chunks_correct Sample.stem (Sample.disk Sample.gapped)
              Sample.job_file None Sample.gapped H)
    as (code & fs' & out & Hrun & _ & _ & _ & Hdone & _ & Herr & _).
  exists code, fs', out. split; [exact Hrun|]. split.
  - apply Hdone. discriminate.
  - apply Herr. discriminate.
Defined.

(** The rebuild example of the specification, evaluated: the output is
    "A" followed by "B" and the report lists index 1. *)
Example rebuild_gapped :
  (r ← Rebuild.rebuild_chunks Sample.stem (Sample.disk Sample.gapped)
         Sample.job_file None;
   Some (r.1.1, r.1.2 !! lit "book_final.txt", r.2))
  = Some (0, Some (TextFile (lit "AB")),
          [Rebuild.Statistics 3 2 1 0; Rebuild.WarnErrors 1 [1];
           Rebuild.Rebuilt 2 (lit "book_final.txt"); Rebuild.Incomplete 1]).
Proof. vm_compute. reflexivity. Qed.

(** ** The example of the specification *)

(** C6 counterexample: the run on the example text does not return the
    two segments the specification lists. *)
Lemma chunk_text_example_not_two_segments :
  Chunk.chunk_text (lit "Hello world. Foo bar,") 10
  <> Some [lit "Hello world."; lit " Foo bar,"].
Proof. vm_compute. discriminate. Qed.

(** C6, as the code has it: the period at position 11 lies beyond the
    ideal cut 10, so the first cut falls after the space at position 5
    and the run returns three segments. *)
Theorem chunk_text_example :
  Chunk.chunk_text (lit "Hello world. Foo bar,") 10
  = Some [lit "Hello "; lit "world."; lit " Foo bar,"].
Proof. vm_compute. reflexivity. Qed.

(** ** Exit statuses *)

Lemma chunk_text_total text b :
  1 <= b -> exists segs, Chunk.chunk_text text b = Some segs.
Proof.
  intros Hb. unfold Chunk.chunk_text.
  destruct (chunk_loop_rule text b (fun _ _ => True) Hb)
    with (fuel := S (length text)) (start := 0) (chunks := @nil str)
    as (segs & _ & _ & Hrun & _).
  - intros start chunks _ _ _. exact I.
  - lia.
  - exact I.
  - unfold len. lia.
  - exists segs. exact Hrun.
Qed.

Lemma process_chunks_exit {Svc : Type}
    (create : Svc -> str -> str -> Process.reply * Svc)
    (e : Process.env) (json_file prompt_template model : str)
    (w : @Process.world Svc) (d : data) :
  truthy (Process.OPENAI_KEY e) = true ->
  Process.fs w !! json_file = Some (JsonFile d) ->
  exists w',
    Process.process_chunks create e json_file prompt_template model w
    = Some (0, w').
Proof.
  intros Hkey Hfile.
  unfold Process.process_chunks. rewrite Hkey, Hfile. cbn [negb].
  destruct (scan_eq (chunks d) 0 [] 0) as [n ->]. cbn [app].
  destruct (Spec.not_done_from (chunks d) 0) as [|i rest] eqn:Hpending.
  - eexists. reflexivity.
  - match goal with
    | |- context [Process.process_loop _ _ _ _ ?l ?st] =>
        destruct (process_loop_trace create json_file prompt_template model l st)
          as (st' & Hloop & _)
    end.
    { intros j Hj. rewrite <- Hpending in Hj.
      apply not_done_from_elem in Hj as (k & c & -> & Hc & _).
      apply lookup_lt_Some in Hc. exact Hc. }
    rewrite Hloop. eexists. reflexivity.
Qed.

Lemma rebuild_chunks_exit (stem : str -> str) (fs : gmap str file)
    (json_file : str) (output_file : option str) (d : data) :
  fs !! json_file = Some (JsonFile d) ->
  exists fs' out,
    Rebuild.rebuild_chunks stem fs json_file output_file =
    Some (if Rebuild.nonempty (filter (fun c => status_of c = Done) (chunks d))
          then 0 else 1, fs', out).
Proof.
  intros Hfile. unfold Rebuild.rebuild_chunks.
  rewrite Hfile, classify_eq. cbn [app].
  destruct (filter (fun c => status_of c = Done) (chunks d));
    cbn [Rebuild.nonempty negb]; eexists _, _; reflexivity.
Qed.

(** C9, as the code has it. Every entry point exits with 1 when its
    input file does not exist and with 0 when it has done its work. The
    processing entry point also exits with 0 when nothing is left to do
    (and with 1 when the API key is missing); the rebuild entry point
    exits with 1 when no chunk is done. *)
Theorem exit_status_cases :
  (forall (stem : str -> str) (fs : gmap str file) (input_file : str) (size : Z),
      (fs !! input_file = None ->
       Chunk.main stem fs input_file size = Some (1, fs)) /\
      (forall text, fs !! input_file = Some (TextFile text) -> 1 <= size ->
                    exists fs', Chunk.main stem fs input_file size = Some (0, fs')))
  /\
  (forall (Svc : Type) (create : Svc -> str -> str -> Process.reply * Svc)
          (e : Process.env) (json_file prompt model_arg : str)
          (w : @Process.world Svc),
      (Process.fs w !! json_file = None ->
       exists w', Process.main create e json_file prompt model_arg w
                  = Some (1, w')) /\
      (forall d, Process.fs w !! json_file = Some (JsonFile d) ->
                 truthy (Process.OPENAI_KEY e) = false ->
                 exists w', Process.main create e json_file prompt model_arg w
                            = Some (1, w')) /\
      (forall d, Process.fs w !! json_file = Some (JsonFile d) ->
                 truthy (Process.OPENAI_KEY e) = true ->
                 exists w', Process.main create e json_file prompt model_arg w
                            = Some (0, w')))
  /\
  (forall (stem : str -> str) (fs : gmap str file) (json_file : str)
          (output : option str),
      (fs !! json_file = None ->
       exists out, Rebuild.main stem fs json_file output = Some (1, fs, out)) /\
      (forall d, fs !! json_file = Some (JsonFile d) ->
                 filter (fun c => status_of c = Done) (chunks d) = [] ->
                 exists out, Rebuild.main stem fs json_file output
                             = Some (1, fs, out)) /\
      (forall d, fs !! json_file = Some (JsonFile d) ->
                 filter (fun c => status_of c = Done) (chunks d) <> [] ->
                 exists fs' out, Rebuild.main stem fs json_file output
                                 = Some (0, fs', out))).
Proof.
  split; [|split].
  - intros stem fs input_file size. split.
    + intros Hnone. unfold Chunk.main.
      rewrite bool_decide_eq_true_2 by exact Hnone. reflexivity.
    + intros text Hfile Hsize. unfold Chunk.main.
      rewrite bool_decide_eq_false_2 by (rewrite Hfile; discriminate).
      unfold Chunk.create_chunked_file. rewrite Hfile.
      destruct (chunk_text_total text size Hsize) as [segs ->].
      eexists. reflexivity.
  - intros Svc create e json_file prompt model_arg w. split; [|split].
    + intros Hnone. unfold Process.main.
      rewrite bool_decide_eq_true_2 by exact Hnone. eexists. reflexivity.
    + intros d Hfile Hkey. unfold Process.main.
      rewrite bool_decide_eq_false_2 by (rewrite Hfile; discriminate).
      unfold Process.process_chunks. rewrite Hkey. eexists. reflexivity.
    + intros d Hfile Hkey. unfold Process.main.
      rewrite bool_decide_eq_false_2 by (rewrite Hfile; discriminate).
      eapply process_chunks_exit; eassumption.
  - intros stem fs json_file output. split; [|split].
    + intros Hnone. unfold Rebuild.main.
      rewrite bool_decide_eq_true_2 by exact Hnone. eexists. reflexivity.
    + intros d Hfile Hdone. unfold Rebuild.main.
      rewrite bool_decide_eq_false_2 by (rewrite Hfile; discriminate).
      unfold Rebuild.rebuild_chunks. rewrite Hfile, classify_eq. cbn [app].
      rewrite Hdone. cbn [Rebuild.nonempty negb]. eexists. reflexivity.
    + intros d Hfile Hdone. unfold Rebuild.main.
      rewrite bool_decide_eq_false_2 by (rewrite Hfile; discriminate).
      destruct (rebuild_chunks_exit stem fs json_file output d Hfile)
        as (fs' & out & ->).
      destruct (filter _ (chunks d)); [contradiction|].
      eexists _, _. reflexivity.
Qed.

Lemma exit_status_cases_witness :
  let missing : @Process.world nat := Process.World ∅ 0%nat [] in
  let finished := Sample.world_with 0%nat Sample.complete in
  (Process.fs missing !! Sample.job_file = None /\
   Process.fs finished !! Sample.job_file = Some (JsonFile Sample.complete) /\
   truthy (Process.OPENAI_KEY Sample.keyed) = true /\
   Sample.disk Sample.untouched !! Sample.job_file
   = Some (JsonFile Sample.untouched) /\
   filter (fun c => status_of c = Done) (chunks Sample.untouched) = []) /\
  (exists w', Process.main Sample.echo Sample.keyed Sample.job_file
                Sample.template Sample.gpt missing = Some (1, w')) /\
  (exists w', Process.main Sample.echo Sample.keyed Sample.job_file
                Sample.template Sample.gpt finished = Some (0, w')) /\
  (exists out, Rebuild.main Sample.stem (Sample.disk Sample.untouched)
                 Sample.job_file None
               = Some (1, Sample.disk Sample.untouched, out)).
Proof.
  intros missing finished.
  assert (H1 : Process.fs missing !! Sample.job_file = None)
    by apply lookup_empty.
  assert (H2 : Process.fs finished !! Sample.job_file
               = Some (JsonFile Sample.complete)) by apply lookup_singleton_eq.
  assert (H3 : truthy (Process.OPENAI_KEY Sample.keyed) = true) by reflexivity.
  assert (H4 : Sample.disk Sample.untouched !! Sample.job_file
               = Some (JsonFile Sample.untouched)) by apply lookup_singleton_eq.
  assert (H5 : filter (fun c => status_of c = Done) (chunks Sample.untouched) = [])
    by reflexivity.
  split; [repeat split; assumption|].
  destruct exit_status_cases as (_ & Hprocess & Hrebuild).
  split; [|split].
  - exact (proj1 (Hprocess nat Sample.echo Sample.keyed Sample.job_file
                    Sample.template Sample.gpt missing) H1).
  - exact (proj2 (proj2 (Hprocess nat Sample.echo Sample.keyed Sample.job_file
                           Sample.template Sample.gpt finished))
             Sample.complete H2 H3).
  - exact (proj1 (proj2 (Hrebuild Sample.stem (Sample.disk Sample.untouched)
                           Sample.job_file None))
             Sample.untouched H4 H5).
Defined.

(** C9 counterexample: the processing entry point exits with 0 both
    when nothing is left to do and after a run that did work, and the
    rebuild entry point exits with 1 both when the job file is missing
    and when there is nothing to rebuild. *)
Lemma exit_status_not_distinguishing :
  ~ Spec.distinguishes
      (fst <$> Process.main Sample.echo Sample.keyed Sample.job_file
                 Sample.template Sample.gpt (Process.World ∅ 0%nat []))
      (fst <$> Process.main Sample.echo Sample.keyed Sample.job_file
                 Sample.template Sample.gpt
                 (Sample.world_with 0%nat Sample.complete))
      (fst <$> Process.main Sample.echo Sample.keyed Sample.job_file
                 Sample.template Sample.gpt
                 (Sample.world_with 0%nat Sample.mixed))
  /\
  ~ Spec.distinguishes
      ((fun r => r.1.1) <$> Rebuild.main Sample.stem ∅ Sample.job_file None)
      ((fun r => r.1.1) <$> Rebuild.main Sample.stem
                              (Sample.disk Sample.untouched) Sample.job_file None)
      ((fun r => r.1.1) <$> Rebuild.main Sample.stem
                              (Sample.disk Sample.gapped) Sample.job_file None).
Proof.
  split.
  - intros (_ & H & _). apply H. vm_compute. reflexivity.
  - intros (H & _). apply H. vm_compute. reflexivity.
Qed.

(** The three exit statuses of each of the two entry points above,
    evaluated. *)
Example exit_statuses :
  (fst <$> Process.main Sample.echo Sample.keyed Sample.job_file
             Sample.template Sample.gpt (Process.World ∅ 0%nat []),
   fst <$> Process.main Sample.echo Sample.keyed Sample.job_file
             Sample.template Sample.gpt (Sample.world_with 0%nat Sample.complete),
   fst <$> Process.main Sample.echo Sample.keyed Sample.job_file
             Sample.template Sample.gpt (Sample.world_with 0%nat Sample.mixed))
  = (Some 1, Some 0, Some 0)
  /\
  ((fun r => r.1.1) <$> Rebuild.main Sample.stem ∅ Sample.job_file None,
   (fun r => r.1.1) <$> Rebuild.main Sample.stem
                          (Sample.disk Sample.untouched) Sample.job_file None,
   (fun r => r.1.1) <$> Rebuild.main Sample.stem
                          (Sample.disk Sample.gapped) Sample.job_file None)
  = (Some 1, Some 1, Some 0).
Proof. split; vm_compute; reflexivity. Qed.

(** * Further properties of the code *)

(** ** Segmentation: sizes, counts and where cuts fall *)

Lemma char_is_lookup text p c :
  char_is text p c = true -> text !! Z.to_nat p = Some c.
Proof.
  unfold char_is. destruct (text !! Z.to_nat p) as [x|]; [|discriminate].
  intros H. apply Ascii.eqb_eq in H. subst. reflexivity.
Qed.

Lemma slice_last text start p c :
  0 <= start <= p -> p < len text -> char_is text p c = true ->
  last (slice text start (p + 1)) = Some c.
Proof.
  intros Hs Hp Hc. rewrite slice_in_range by lia.
  rewrite last_lookup, length_take, length_drop.
  unfold len in Hp.
  rewrite lookup_take_lt by lia. rewrite lookup_drop.
  apply char_is_lookup in Hc. rewrite <- Hc. f_equal. lia.
Qed.

Lemma best_break_full_or_at_boundary text b start :
  1 <= b -> 0 <= start -> start + b < len text ->
  Spec.full_or_at_boundary b (slice text start (Chunk.best_break text b start)).
Proof.
  intros Hb Hs Hlt.
  destruct (best_break_cut_point text b start Hb Hs ltac:(lia))
    as [(l1 & c & l2 & p & Hcl & _ & (Hw & Hc & _) & ->) | [_ ->]].
  - right. exists c. split.
    + rewrite Hcl. apply elem_of_app. right. left.
    + unfold Spec.in_window in Hw. apply slice_last; [lia | lia | exact Hc].
  - left. rewrite length_slice by lia. lia.
Qed.

(** Everything the loop invariant gives about the returned segments. *)
Lemma chunk_text_facts text b :
  1 <= b ->
  exists segs,
    Chunk.chunk_text text b = Some segs /\
    concat segs = text /\
    Forall (fun seg => 1 <= len seg <= b) segs /\
    b * (len segs - 1) <= 2 * len text /\
    (forall i seg, (S i < length segs)%nat -> segs !! i = Some seg ->
                   Spec.full_or_at_boundary b seg).
Proof.
  intros Hb. unfold Chunk.chunk_text.
  destruct (chunk_loop_rule text b
              (fun start chunks =>
                 start <= len text /\
                 concat chunks = take (Z.to_nat start) text /\
                 Forall (fun seg => 1 <= len seg <= b) chunks /\
                 b * len chunks <= 2 * start /\
                 Forall (Spec.full_or_at_boundary b) chunks) Hb)
    with (fuel := S (length text)) (start := 0) (chunks := @nil str)
    as (segs & s & chunks' & Hrun & Hs & (Hle & Hcat & Hlen & Hcount & Hend) & Hfin).
  - intros start chunks Hs Hlt (_ & Hcat & Hlen & Hcount & Hend).
    pose proof (best_break_cut_point text b start Hb Hs ltac:(lia)) as Hcut.
    pose proof (cut_point_bounds _ _ _ _ Hb Hcut) as [Hbb Hhalf].
    split; [lia|]. split.
    { rewrite concat_app, Hcat. simpl. rewrite app_nil_r.
      apply take_slice; lia. }
    split.
    { apply Forall_app. split; [exact Hlen|]. apply Forall_singleton.
      rewrite length_slice by lia. lia. }
    split.
    { rewrite len_app. unfold len at 2. simpl. lia. }
    apply Forall_app. split; [exact Hend|]. apply Forall_singleton.
    apply best_break_full_or_at_boundary; assumption.
  - lia.
  - split; [apply len_nonneg|]. split; [reflexivity|].
    split; [constructor|]. split; [unfold len; simpl; lia | constructor].
  - unfold len. lia.
  - exists segs. split; [exact Hrun|].
    destruct Hfin as [[Hge ->] | (Hlt & Hfit & ->)].
    + split; [rewrite Hcat; apply take_ge; unfold len in *; lia|].
      split; [exact Hlen|]. split; [lia|].
      intros i seg _ Hi. rewrite Forall_lookup in Hend. eapply Hend. exact Hi.
    + split.
      { rewrite concat_app, Hcat. simpl. rewrite app_nil_r.
        apply take_slice_from. lia. }
      split.
      { apply Forall_app. split; [exact Hlen|]. apply Forall_singleton.
        rewrite slice_from_in_range by lia.
        unfold len in *. rewrite length_drop. lia. }
      split; [rewrite len_app; unfold len at 2; simpl; lia|].
      intros i seg Hi Hseg. rewrite length_app in Hi. simpl in Hi.
      rewrite lookup_app_l in Hseg by lia.
      rewrite Forall_lookup in Hend. eapply Hend. exact Hseg.
Qed.

(** X1. An empty text gives no segment, whatever the chunk size; a
    non-empty text no longer than the chunk size gives the text itself
    as the only segment. *)
Theorem chunk_text_short :
  (forall b, Chunk.chunk_text [] b = Some []) /\
  (forall text b, text <> [] -> len text <= b ->
                  Chunk.chunk_text text b = Some [text]).
Proof.
  split; [reflexivity|].
  intros text b Hne Hlen. unfold Chunk.chunk_text. cbn [Chunk.chunk_loop].
  assert (0 < len text) by (destruct text; [contradiction | unfold len; simpl; lia]).
  destruct (Z.ltb_spec 0 (len text)); [|lia].
  destruct (Z.geb_spec (0 + b) (len text)); [|lia].
  rewrite slice_from_in_range by lia. reflexivity.
Qed.

Lemma chunk_text_short_witness :
  (lit "short" <> [] /\ len (lit "short") <= 5) /\
  Chunk.chunk_text (lit "short") 5 = Some [lit "short"].
Proof.
  assert (H1 : lit "short" <> []) by discriminate.
  assert (H2 : len (lit "short") <= 5) by (vm_compute; discriminate).
  split; [split; assumption|].
  exact (proj2 chunk_text_short (lit "short") 5 H1 H2).
Defined.

(** X2. With a chunk size of at least 1, every segment, the last one
    included, has between 1 and chunk_size characters; so a text needs at
    least len/chunk_size segments, and since all segments but the last
    hold at least half a chunk it gets at most 2*len/chunk_size + 1. *)
Theorem chunk_text_sizes (text : str) (b : Z) (segs : list str) :
  1 <= b ->
  Chunk.chunk_text text b = Some segs ->
  Forall (fun seg => 1 <= len seg <= b) segs /\
  len text <= b * len segs /\
  b * (len segs - 1) <= 2 * len text.
Proof.
  intros Hb Hrun.
  destruct (chunk_text_facts text b Hb) as (segs' & Hrun' & Hcat & Hlen & Hcount & _).
  rewrite Hrun in Hrun'. injection Hrun' as <-.
  split; [exact Hlen|]. split; [|exact Hcount].
  rewrite <- Hcat. clear -Hlen Hb.
  induction Hlen as [|seg segs [_ Hseg] _ IH].
  - unfold len. simpl. lia.
  - simpl. rewrite len_app. unfold len in *. cbn [length].
    rewrite Nat2Z.inj_succ. lia.
Qed.

Lemma chunk_text_sizes_witness :
  let text := lit "Hello world. Foo bar," in
  let segs := [lit "Hello "; lit "world."; lit " Foo bar,"] in
  (1 <= 10 /\ Chunk.chunk_text text 10 = Some segs) /\
  Forall (fun seg => 1 <= len seg <= 10) segs /\
  len text <= 10 * len segs /\
  10 * (len segs - 1) <= 2 * len text.
Proof.
  intros text segs.
  assert (H1 : 1 <= 10) by lia.
  assert (H2 : Chunk.chunk_text text 10 = Some segs) by reflexivity.
  split; [split; assumption|].
  exact (chunk_text_sizes text 10 segs H1 H2).
Defined.

(** X3. With a chunk size between -2^53 and 0, the range in which
    the half of the chunk size is computed exactly, the loop never
    returns on a non-empty text: no amount of fuel gives a result. *)
Theorem chunk_text_never_returns (text : str) (b : Z) :
  - 2 ^ 53 <= b <= 0 -> text <> [] ->
  forall fuel, Chunk.chunk_loop fuel text b 0 [] = None.
Proof.
  intros [_ Hb] Hne fuel. apply chunk_loop_diverges; [exact Hb|].
  destruct text; [contradiction | unfold len; simpl; lia].
Qed.

Lemma chunk_text_never_returns_witness :
  (- 2 ^ 53 <= -2 <= 0 /\ lit "abc" <> []) /\
  forall fuel, Chunk.chunk_loop fuel (lit "abc") (-2) 0 [] = None.
Proof.
  assert (H1 : - 2 ^ 53 <= -2 <= 0) by lia.
  assert (H2 : lit "abc" <> []) by discriminate.
  split; [split; assumption|].
  exact (chunk_text_never_returns (lit "abc") (-2) H1 H2).
Defined.

(** X4. With a chunk size of at least 1, every segment but the last
    either has exactly chunk_size characters or ends with a newline, a
    period, a comma or a space: a cut falls inside a word only when the
    segment is full. *)
Theorem chunk_text_cuts_at_boundaries (text : str) (b : Z) (segs : list str) :
  1 <= b ->
  Chunk.chunk_text text b = Some segs ->
  forall (i : nat) (seg : str),
    (S i < length segs)%nat -> segs !! i = Some seg ->
    Spec.full_or_at_boundary b seg.
Proof.
  intros Hb Hrun.
  destruct (chunk_text_facts text b Hb) as (segs' & Hrun' & _ & _ & _ & Hend).
  rewrite Hrun in Hrun'. injection Hrun' as <-. exact Hend.
Qed.

Lemma chunk_text_cuts_at_boundaries_witness :
  let text := lit "Hello world. Foo bar," in
  let segs := [lit "Hello "; lit "world."; lit " Foo bar,"] in
  (1 <= 10 /\ Chunk.chunk_text text 10 = Some segs /\
   (S 0 < length segs)%nat /\ segs !! 0%nat = Some (lit "Hello ")) /\
  Spec.full_or_at_boundary 10 (lit "Hello ").
Proof.
  intros text segs.
  assert (H1 : 1 <= 10) by lia.
  assert (H2 : Chunk.chunk_text text 10 = Some segs) by reflexivity.
  assert (H3 : (S 0 < length segs)%nat) by (simpl; lia).
  assert (H4 : segs !! 0%nat = Some (lit "Hello ")) by reflexivity.
  split; [repeat split; assumption|].
  exact (chunk_text_cuts_at_boundaries text 10 segs H1 H2 0%nat _ H3 H4).
Defined.

(** ** The job file written by chunk.py *)

Lemma imap_chunk_texts (segs : list str) :
  text <$> imap (fun i seg => Chunk_ (Z.of_nat i) seg Pending None None) segs
  = segs.
Proof.
  apply list_eq. intros i.
  rewrite list_lookup_fmap, list_lookup_imap.
  destruct (segs !! i); reflexivity.
Qed.

(** X5. For an existing text file and a chunk size of at least 1,
    [create_chunked_file] writes, under the stem of the input name
    followed by "_chunked.json" and over whatever was there, a job whose
    chunk texts are the segments of the document and concatenate to it,
    whose chunks are numbered by position, all pending, without result or
    error, and whose meta data records the stem, the chunk size and the
    number of chunks. *)
Theorem create_chunked_file_job (stem : str -> str) (fs : gmap str file)
    (input_file doc : str) (size : Z) :
  fs !! input_file = Some (TextFile doc) ->
  1 <= size ->
  exists cs,
    Chunk.create_chunked_file stem fs input_file size
    = Some (stem input_file ++ lit "_chunked.json",
            <[stem input_file ++ lit "_chunked.json" :=
                JsonFile (Data (Meta (stem input_file) size (len cs)) cs)]> fs) /\
    Chunk.chunk_text doc size = Some (text <$> cs) /\
    concat (text <$> cs) = doc /\
    (forall i c, cs !! i = Some c ->
                 index c = Z.of_nat i /\ status_of c = Pending /\
                 result c = None /\ error c = None).
Proof.
  intros Hfile Hsize.
  destruct (chunk_text_facts doc size Hsize) as (segs & Hrun & Hcat & _).
  exists (imap (fun i seg => Chunk_ (Z.of_nat i) seg Pending None None) segs).
  rewrite imap_chunk_texts. split; [|split; [exact Hrun | split; [exact Hcat|]]].
  - unfold Chunk.create_chunked_file. rewrite Hfile, Hrun.
    cbn [mbind option_bind]. unfold len. rewrite length_imap. reflexivity.
  - intros i c Hc. rewrite list_lookup_imap in Hc.
    destruct (segs !! i); [|discriminate].
    injection Hc as <-. repeat split; reflexivity.
Qed.

Lemma create_chunked_file_job_witness :
  let fs : gmap str file := {[ lit "book.txt" := TextFile (lit "one two, three.") ]} in
  (fs !! lit "book.txt" = Some (TextFile (lit "one two, three.")) /\ 1 <= 4) /\
  exists cs,
    Chunk.create_chunked_file Sample.stem fs (lit "book.txt") 4
    = Some (Sample.stem (lit "book.txt") ++ lit "_chunked.json",
            <[Sample.stem (lit "book.txt") ++ lit "_chunked.json" :=
                JsonFile (Data (Meta (Sample.stem (lit "book.txt")) 4 (len cs))
                               cs)]> fs) /\
    Chunk.chunk_text (lit "one two, three.") 4 = Some (text <$> cs) /\
    concat (text <$> cs) = lit "one two, three." /\
    (forall i c, cs !! i = Some c ->
                 index c = Z.of_nat i /\ status_of c = Pending /\
                 result c = None /\ error c = None).
Proof.
  intros fs.
  assert (H1 : fs !! lit "book.txt" = Some (TextFile (lit "one two, three.")))
    by apply lookup_singleton_eq.
  assert (H2 : 1 <= 4) by lia.
  split; [split; assumption|].
  exact (create_chunked_file_job Sample.stem fs (lit "book.txt")
           (lit "one two, three.") 4 H1 H2).
Defined.

(** ** The prompt sent for a chunk *)

Lemma starts_with_app (old post : str) : starts_with old (old ++ post) = true.
Proof.
  induction old as [|a old IH]; simpl; [reflexivity|].
  rewrite Ascii.eqb_refl. exact IH.
Qed.

Lemma starts_with_prefix (old s : str) :
  starts_with old s = true -> exists post, s = old ++ post.
Proof.
  revert s. induction old as [|a old IH]; intros s H.
  - exists s. reflexivity.
  - destruct s as [|b s]; [discriminate|]. simpl in H.
    apply andb_prop in H as [Hab H]. apply Ascii.eqb_eq in Hab as ->.
    destruct (IH _ H) as [post ->]. exists post. reflexivity.
Qed.

Lemma replace_go_skip (skipped rest old new : str) :
  replace_go (length skipped) (skipped ++ rest) old new
  = replace_go 0 rest old new.
Proof.
  induction skipped as [|c skipped IH]; [reflexivity|]. simpl.
  destruct rest as [|r rest'] eqn:E.
  - rewrite app_nil_r in *. destruct skipped; exact IH.
  - exact IH.
Qed.

Lemma replace_absent (s old new : str) :
  (forall pre post, s <> pre ++ old ++ post) ->
  replace s old new = s.
Proof.
  unfold replace. induction s as [|c s IH]; intros Hno; [reflexivity|].
  cbn [replace_go].
  destruct (starts_with old (c :: s)) eqn:Hst.
  - apply starts_with_prefix in Hst as [post Hpost].
    exfalso. apply (Hno [] post). exact Hpost.
  - f_equal. apply IH. intros pre post ->.
    apply (Hno (c :: pre) post). reflexivity.
Qed.

Lemma replace_first (pre old' post new : str) (a : ascii) :
  a ∉ pre ->
  replace (pre ++ (a :: old') ++ post) (a :: old') new
  = pre ++ new ++ replace post (a :: old') new.
Proof.
  unfold replace. induction pre as [|c pre IH]; intros Hpre.
  - cbn [app replace_go].
    pose proof (starts_with_app (a :: old') post) as Hst.
    cbn [app] in Hst. rewrite Hst.
    cbn [length]. rewrite Nat.sub_succ, Nat.sub_0_r.
    rewrite replace_go_skip. reflexivity.
  - apply not_elem_of_cons in Hpre as [Hac Hpre].
    cbn [app replace_go starts_with].
    assert (E : Ascii.eqb a c = false) by (apply Ascii.eqb_neq; exact Hac).
    rewrite E. cbn [andb]. f_equal. apply IH. exact Hpre.
Qed.

Lemma no_brace_no_placeholder (s : str) :
  "{"%char ∉ s -> forall pre post, s <> pre ++ lit "{text}" ++ post.
Proof.
  intros Hno pre post ->. apply Hno.
  apply elem_of_app. right. left.
Qed.

Section Prompt.

Context {Svc : Type}.
Variable create : Svc -> str -> str -> Process.reply * Svc.

(** X6. When the template does not contain the placeholder "{text}",
    the request sent for a chunk carries the template itself: the text of
    the chunk is not part of it. *)
Theorem process_chunk_without_placeholder (w : @Process.world Svc)
    (chunk_text prompt_template model : str) :
  (forall pre post, prompt_template <> pre ++ lit "{text}" ++ post) ->
  Process.out (Process.process_chunk create w chunk_text prompt_template model).2
  = Process.out w ++ [Process.ApiCall model prompt_template].
Proof.
  intros Hno. unfold Process.process_chunk.
  rewrite (replace_absent prompt_template _ chunk_text Hno).
  destruct (create (Process.svc w) model prompt_template) as [[content|msg] s];
    reflexivity.
Qed.

(** X7. When the template is some text, the placeholder "{text}" and
    some more text, neither of them with an opening brace, the request
    sent for a chunk carries the template with the placeholder replaced
    by the text of the chunk, taken as it is even if it contains the
    placeholder itself. *)
Theorem process_chunk_prompt (w : @Process.world Svc)
    (chunk_text pre post model : str) :
  "{"%char ∉ pre -> "{"%char ∉ post ->
  Process.out
    (Process.process_chunk create w chunk_text (pre ++ lit "{text}" ++ post)
       model).2
  = Process.out w ++ [Process.ApiCall model (pre ++ chunk_text ++ post)].
Proof.
  intros Hpre Hpost. unfold Process.process_chunk.
  pose proof (replace_first pre (lit "text}") post chunk_text "{"%char Hpre) as E.
  change ("{"%char :: lit "text}") with (lit "{text}") in E.
  rewrite E.
  rewrite (replace_absent post _ chunk_text (no_brace_no_placeholder post Hpost)).
  destruct (create (Process.svc w) model (pre ++ chunk_text ++ post))
    as [[content|msg] s]; reflexivity.
Qed.

End Prompt.

Lemma process_chunk_without_placeholder_witness :
  let w := Sample.world_with 0%nat Sample.mixed in
  (forall pre post, lit "Summarise." <> pre ++ lit "{text}" ++ post) /\
  Process.out (Process.process_chunk Sample.echo w (lit "two ")
                 (lit "Summarise.") Sample.gpt).2
  = Process.out w ++ [Process.ApiCall Sample.gpt (lit "Summarise.")].
Proof.
  intros w.
  assert (H : forall pre post, lit "Summarise." <> pre ++ lit "{text}" ++ post).
  { apply no_brace_no_placeholder. intros Hin.
    repeat (apply elem_of_cons in Hin as [Hin | Hin]; [discriminate|]).
    inversion Hin. }
  split; [exact H|].
  exact (process_chunk_without_placeholder Sample.echo w (lit "two ")
           (lit "Summarise.") Sample.gpt H).
Defined.

Lemma process_chunk_prompt_witness :
  let w := Sample.world_with 0%nat Sample.mixed in
  (("{"%char ∉ lit "Fix: ") /\ ("{"%char ∉ lit " Thanks.")) /\
  Process.out (Process.process_chunk Sample.echo w (lit "a {text} b")
                 (lit "Fix: " ++ lit "{text}" ++ lit " Thanks.") Sample.gpt).2
  = Process.out w
    ++ [Process.ApiCall Sample.gpt
          (lit "Fix: " ++ lit "a {text} b" ++ lit " Thanks.")].
Proof.
  intros w.
  assert (H1 : "{"%char ∉ lit "Fix: ").
  { intros Hin.
    repeat (apply elem_of_cons in Hin as [Hin | Hin]; [discriminate|]).
    inversion Hin. }
  assert (H2 : "{"%char ∉ lit " Thanks.").
  { intros Hin.
    repeat (apply elem_of_cons in Hin as [Hin | Hin]; [discriminate|]).
    inversion Hin. }
  split; [split; assumption|].
  exact (process_chunk_prompt Sample.echo w (lit "a {text} b") (lit "Fix: ")
           (lit " Thanks.") Sample.gpt H1 H2).
Defined.

(** ** What a processing run leaves behind *)

Lemma attempt_status c r :
  status_of (Spec.attempt c r) = if Trace.reply_ok r then Done else Error.
Proof. destruct r as [[[|a o]|]|msg]; reflexivity. Qed.

Lemma attempt_index c r : index (Spec.attempt c r) = index c.
Proof. destruct r as [[[|a o]|]|msg]; reflexivity. Qed.

Section ProcessEffect.

Context {Svc : Type}.
Variable create : Svc -> str -> str -> Process.reply * Svc.
Variables json_file prompt_template model : str.

(** One iteration, with the counters written out. *)
Lemma process_one_full (st st' : @Process.run_state Svc) (i : nat) :
  Process.process_one create json_file prompt_template model st i = Some st' ->
  exists c r s preview,
    chunks (Process.st_data st) !! i = Some c /\
    create (Process.svc (Process.st_world st)) model
           (replace prompt_template (lit "{text}") (text c)) = (r, s) /\
    let d' := Data (meta_of (Process.st_data st))
                   (<[i := Spec.attempt c r]> (chunks (Process.st_data st))) in
    st' = Process.RunState d'
            (Process.update (Process.st_tracker st) (Trace.reply_ok r)
                            (Some (Z.of_nat i)))
            (Process.World
               (<[json_file := JsonFile d']> (Process.fs (Process.st_world st)))
               s
               (Process.out (Process.st_world st) ++
                [Process.Current (Z.of_nat i) preview;
                 Process.ApiCall model
                   (replace prompt_template (lit "{text}") (text c));
                 Process.Saved json_file d'])).
Proof.
  intros H. unfold Process.process_one in H.
  destruct (chunks (Process.st_data st) !! i) as [c|] eqn:Hi; [|discriminate].
  cbn [mbind option_bind] in H.
  unfold Process.process_chunk, Process.emit in H.
  cbn [Process.svc Process.fs Process.out] in H.
  destruct (create (Process.svc (Process.st_world st)) model
              (replace prompt_template (lit "{text}") (text c))) as [r s] eqn:Hr.
  exists c, r, s. eexists. split; [first [exact Hi | reflexivity]|].
  split; [first [exact Hr | reflexivity]|].
  destruct r as [[[|a output]|]|msg];
    cbn [truthy] in H; unfold Process.save in H;
    cbn [Process.svc Process.fs Process.out] in H;
    injection H as <-; cbn [Spec.attempt Trace.reply_ok];
    rewrite <- !app_assoc; reflexivity.
Qed.

Lemma process_loop_effect pending (st : @Process.run_state Svc) :
  NoDup pending ->
  (forall i, i ∈ pending -> (i < length (chunks (Process.st_data st)))%nat) ->
  exists st',
    Process.process_loop create json_file prompt_template model pending st
    = Some st' /\
    Trace.loop_effect create json_file prompt_template model pending st st'.
Proof.
  intros Hnodup Hrange.
  destruct (process_loop_rule create json_file prompt_template model
              (fun pending st st' =>
                 NoDup pending ->
                 Trace.loop_effect create json_file prompt_template model
                   pending st st')) with (pending := pending) (st := st)
    as (st' & Hloop & Heff); [| |exact Hrange|].
  - intros st0 _. unfold Trace.loop_effect. cbv zeta.
    split; [reflexivity|]. split; [reflexivity|]. split; [reflexivity|].
    split; [intros j c Hin; inversion Hin|].
    split; [reflexivity|].
    split; [unfold len; simpl; lia|]. split; [unfold len; simpl; lia|].
    split; [reflexivity|].
    split; [unfold Trace.errors_among; rewrite filter_nil; simpl;
            rewrite app_nil_r; reflexivity|].
    split; [reflexivity|].
    split; [intros H; contradiction | reflexivity].
  - clear Hnodup Hrange st pending.
    intros i rest st st1 st2 Hone IH Hnodup.
    apply NoDup_cons in Hnodup as [Hi Hrest].
    specialize (IH Hrest).
    apply process_one_full in Hone as (c & r & s & preview & Hc & Hr & ->).
    cbv zeta in IH.
    destruct IH as (Hmeta & Hlen & Hout & Hatt & Htot & Hproc & Hsum & Hfail &
                    Hfc & Hfs & Hfile & Hnil).
    cbn [Process.st_data Process.st_tracker Process.st_world Process.fs
         meta_of chunks] in *.
    assert (Hilt : (i < length (chunks (Process.st_data st)))%nat)
      by (eapply lookup_lt_Some; exact Hc).
    assert (Hi2 : chunks (Process.st_data st2) !! i = Some (Spec.attempt c r)).
    { rewrite Hout by exact Hi. apply list_lookup_insert_eq. exact Hilt. }
    unfold Trace.loop_effect. cbv zeta.
    split; [exact Hmeta|].
    split; [rewrite Hlen; apply length_insert|].
    split.
    { intros j Hj. apply not_elem_of_cons in Hj as [Hji Hj].
      rewrite Hout by exact Hj. apply list_lookup_insert_ne. congruence. }
    split.
    { intros j c0 Hj Hc0. destruct (decide (j = i)) as [->|Hji].
      - rewrite Hc in Hc0. injection Hc0 as <-.
        exists (Process.svc (Process.st_world st)). rewrite Hr. exact Hi2.
      - apply elem_of_cons in Hj as [Hj | Hj]; [contradiction|].
        apply (Hatt j c0 Hj).
        rewrite list_lookup_insert_ne by congruence. exact Hc0. }
    assert (Hlen1 : len (i :: rest) = 1 + len rest) by (unfold len; simpl; lia).
    rewrite Hlen1.
    assert (Herr : Trace.errors_among (chunks (Process.st_data st2)) (i :: rest)
                   = (if Trace.reply_ok r then [] else [i])
                     ++ Trace.errors_among (chunks (Process.st_data st2)) rest).
    { unfold Trace.errors_among. rewrite filter_cons, Hi2. cbn [fmap option_fmap option_map].
      rewrite attempt_status.
      destruct (Trace.reply_ok r); case_decide; try congruence; reflexivity. }
    rewrite Herr.
    unfold Process.update in *.
    destruct (Trace.reply_ok r);
      cbn [Process.t_total Process.processed Process.success Process.failed
           Process.failed_chunks] in *.
    + split; [exact Htot|]. split; [lia|]. split; [lia|]. split; [exact Hfail|].
      split; [exact Hfc|]. split.
      { intros p Hp. rewrite Hfs by exact Hp. apply lookup_insert_ne. congruence. }
      split; [|intros H; discriminate].
      intros _. destruct rest as [|k rest'].
      * rewrite (Hnil eq_refl). cbn [Process.st_world Process.fs Process.st_data].
        apply lookup_insert_eq.
      * apply Hfile. discriminate.
    + split; [exact Htot|]. split; [lia|]. split; [lia|]. split.
      { rewrite len_app in Hfail. change (len [Z.of_nat i]) with 1 in Hfail. lia. }
      split; [rewrite Hfc, <- app_assoc; reflexivity|]. split.
      { intros p Hp. rewrite Hfs by exact Hp. apply lookup_insert_ne. congruence. }
      split; [|intros H; discriminate].
      intros _. destruct rest as [|k rest'].
      * rewrite (Hnil eq_refl). cbn [Process.st_world Process.fs Process.st_data].
        apply lookup_insert_eq.
      * apply Hfile. discriminate.
  - exists st'. split; [exact Hloop | exact (Heff Hnodup)].
Qed.

End ProcessEffect.

Lemma scan_full cs i pending done_count :
  Process.scan cs i pending done_count
  = (pending ++ Spec.not_done_from cs i,
     done_count + len cs - len (Spec.not_done_from cs i)).
Proof.
  revert i pending done_count.
  induction cs as [|c cs IH]; intros i pending done_count; simpl.
  - rewrite app_nil_r. f_equal. unfold len. simpl. lia.
  - case_bool_decide; rewrite IH.
    + f_equal. unfold len. simpl. lia.
    + rewrite <- app_assoc. f_equal. unfold len. simpl. lia.
Qed.

Lemma not_done_count cs i :
  len (Spec.not_done_from cs i) + len (filter (fun c => status_of c = Done) cs)
  = len cs.
Proof.
  revert i. induction cs as [|c cs IH]; intros i; simpl; [reflexivity|].
  rewrite filter_cons. specialize (IH (S i)).
  case_bool_decide; case_decide; try contradiction; unfold len in *; simpl; lia.
Qed.

Lemma sorted_lt_NoDup (l : list nat) : StronglySorted lt l -> NoDup l.
Proof.
  induction 1 as [|x l _ IH Hx]; constructor; [|exact IH].
  intros Hin. rewrite Forall_forall in Hx. specialize (Hx x Hin). lia.
Qed.

Lemma sorted_lt_filter (P : nat -> Prop) `{forall x, Decision (P x)} (l : list nat) :
  StronglySorted lt l -> StronglySorted lt (filter P l).
Proof.
  induction 1 as [|x l _ IH Hx]; [constructor|].
  rewrite filter_cons. case_decide; [|exact IH].
  constructor; [exact IH|].
  apply Forall_forall. intros y Hy. apply list_elem_of_filter in Hy as [_ Hy].
  rewrite Forall_forall in Hx. apply Hx. exact Hy.
Qed.

Lemma sorted_lt_ext (l k : list nat) :
  StronglySorted lt l -> StronglySorted lt k ->
  (forall x, x ∈ l <-> x ∈ k) -> l = k.
Proof.
  intros Hl Hk Hext.
  apply (StronglySorted_unique_strong lt); [|exact Hl|exact Hk|].
  - intros x y _ _ Hxy Hyx. lia.
  - apply NoDup_Permutation; [apply sorted_lt_NoDup; exact Hl
                             |apply sorted_lt_NoDup; exact Hk | exact Hext].
Qed.

Lemma not_done_lookup cs j :
  j ∈ Spec.not_done_from cs 0 <->
  exists c, cs !! j = Some c /\ status_of c <> Done.
Proof.
  rewrite not_done_from_elem. split.
  - intros (k & c & -> & H). exists c. exact H.
  - intros (c & H). exists j, c. split; [reflexivity | exact H].
Qed.

Section ProcessOutcome.

Context {Svc : Type}.
Variable create : Svc -> str -> str -> Process.reply * Svc.
Variables json_file prompt_template model : str.

(** Everything the two loop rules give about one call of
    [process_chunks]. *)
Lemma process_chunks_effect (e : Process.env) (w : @Process.world Svc) (d : data) :
  truthy (Process.OPENAI_KEY e) = true ->
  Process.fs w !! json_file = Some (JsonFile d) ->
  let pending := Spec.not_done_from (chunks d) 0 in
  exists w' d',
    Process.process_chunks create e json_file prompt_template model w
    = Some (0, w') /\
    Process.fs w' !! json_file = Some (JsonFile d') /\
    (forall p, p <> json_file -> Process.fs w' !! p = Process.fs w !! p) /\
    meta_of d' = meta_of d /\
    length (chunks d') = length (chunks d) /\
    (forall j, j ∉ pending -> chunks d' !! j = chunks d !! j) /\
    (forall j c, j ∈ pending -> chunks d !! j = Some c ->
       exists s,
         chunks d' !! j
         = Some (Spec.attempt c
                   (create s model
                      (replace prompt_template (lit "{text}") (text c))).1)) /\
    exists evs,
      Process.out w' = Process.out w ++ evs /\
      Trace.attempted evs = Z.of_nat <$> pending /\
      Trace.requests evs =
        (fun i => (model, Trace.prompt_at prompt_template (chunks d) i))
          <$> pending /\
      (pending <> [] ->
       exists t,
         last evs = Some (Process.Summary t) /\
         Process.t_total t = len (chunks d) /\
         Process.processed t = len pending /\
         Process.success t + Process.failed t = len (chunks d) /\
         Process.failed t = len (Process.failed_chunks t) /\
         Process.failed_chunks t
         = Z.of_nat <$> Trace.errors_among (chunks d') pending).
Proof.
  intros Hkey Hfile. cbv zeta.
  unfold Process.process_chunks. rewrite Hkey, Hfile. cbn [negb].
  rewrite scan_full. cbn [app].
  destruct (Spec.not_done_from (chunks d) 0) as [|i rest] eqn:Hpending.
  - exists (Process.emit Process.AllProcessed
             (Process.emit (Process.Found (len (chunks d)) (len (@nil nat))
                              (0 + len (chunks d) - len (@nil nat)))
                (Process.emit (Process.Starting json_file) w))), d.
    split; [reflexivity|]. split; [exact Hfile|].
    split; [reflexivity|]. split; [reflexivity|]. split; [reflexivity|].
    split; [reflexivity|].
    split; [intros j c Hin; inversion Hin|].
    eexists. split.
    { unfold Process.emit. cbn [Process.out]. rewrite <- !app_assoc. reflexivity. }
    split; [reflexivity|]. split; [reflexivity|].
    intros H. contradiction.
  - set (w1 := Process.emit _ (Process.emit _ w)).
    set (t0 := Process.Tracker _ _ _ _ _).
    assert (Hsorted : StronglySorted lt (i :: rest))
      by (rewrite <- Hpending; apply not_done_from_sorted).
    assert (Hrange : forall j, j ∈ i :: rest ->
                               (j < length (chunks d))%nat).
    { intros j Hj. rewrite <- Hpending in Hj.
      apply not_done_lookup in Hj as (c & Hc & _).
      eapply lookup_lt_Some. exact Hc. }
    destruct (process_loop_effect create json_file prompt_template model
                (i :: rest) (Process.RunState d t0 w1)
                (sorted_lt_NoDup _ Hsorted) Hrange)
      as (st' & Hloop & Heff).
    destruct (process_loop_trace create json_file prompt_template model
                (i :: rest) (Process.RunState d t0 w1) Hrange)
      as (st'' & Hloop' & _ & _ & evs & Hout & Hatt & Hreq).
    rewrite Hloop in Hloop'. injection Hloop' as <-.
    rewrite Hloop. cbn [mbind option_bind].
    unfold Trace.loop_effect in Heff. cbv zeta in Heff.
    cbn [Process.st_data Process.st_tracker Process.st_world] in Heff, Hout, Hreq.
    destruct Heff as (Hmeta & Hlen & Hkeep & Hdone & Htot & Hproc & Hsum &
                      Hfail & Hfc & Hfs & Hsaved & _).
    exists (Process.emit (Process.Summary (Process.st_tracker st'))
              (Process.st_world st')), (Process.st_data st').
    split; [reflexivity|].
    split; [apply Hsaved; discriminate|].
    split; [exact Hfs|]. split; [exact Hmeta|]. split; [exact Hlen|].
    split; [exact Hkeep|]. split; [exact Hdone|].
    eexists. split.
    { unfold Process.emit at 1. cbn [Process.out]. rewrite Hout.
      unfold w1, Process.emit. cbn [Process.out].
      rewrite <- !app_assoc. reflexivity. }
    split.
    { unfold Trace.attempted in *. rewrite !omap_app, Hatt.
      cbn [omap list_omap app]. rewrite app_nil_r. reflexivity. }
    split.
    { unfold Trace.requests in *. rewrite !omap_app, Hreq.
      cbn [omap list_omap app]. rewrite app_nil_r. reflexivity. }
    intros _. exists (Process.st_tracker st').
    split.
    { rewrite !app_assoc. apply last_snoc. }
    unfold t0 in *.
    cbn [Process.t_total Process.processed Process.success Process.failed
         Process.failed_chunks Process.tracker_init] in *.
    assert (Hn : len (Spec.not_done_from (chunks d) 0) = len (i :: rest))
      by (rewrite Hpending; reflexivity).
    split; [exact Htot|]. split; [lia|]. split; [lia|].
    split; [unfold len in Hfail at 2; simpl in Hfail; lia|].
    exact Hfc.
Qed.

End ProcessOutcome.

(** The chunks left in error by a run are the ones a later scan finds
    not done. *)
Lemma errors_among_not_done (cs cs' : list chunk) :
  (forall j, j ∉ Spec.not_done_from cs 0 -> cs' !! j = cs !! j) ->
  (forall j c, j ∈ Spec.not_done_from cs 0 -> cs !! j = Some c ->
               exists r, cs' !! j = Some (Spec.attempt c r)) ->
  Trace.errors_among cs' (Spec.not_done_from cs 0) = Spec.not_done_from cs' 0.
Proof.
  intros Hkeep Hdone. apply sorted_lt_ext.
  - apply sorted_lt_filter. apply not_done_from_sorted.
  - apply not_done_from_sorted.
  - intros j. unfold Trace.errors_among.
    rewrite list_elem_of_filter, (not_done_lookup cs' j). split.
    + intros [Herr Hj]. destruct (cs' !! j) as [c'|]; [|discriminate].
      exists c'. split; [reflexivity|]. simpl in Herr. congruence.
    + intros (c' & Hc' & Hnd).
      destruct (decide (j ∈ Spec.not_done_from cs 0)) as [Hj | Hj].
      * split; [|exact Hj].
        pose proof Hj as Hj'. apply not_done_lookup in Hj' as (c & Hc & _).
        destruct (Hdone j c Hj Hc) as [r Hr].
        rewrite Hr in Hc'. injection Hc' as <-. rewrite Hr. simpl.
        rewrite attempt_status in *. destruct (Trace.reply_ok r); congruence.
      * exfalso. rewrite (Hkeep j Hj) in Hc'. apply Hj.
        apply not_done_lookup. exists c'. split; assumption.
Qed.

Section ProcessRunProperties.

Context {Svc : Type}.
Variable create : Svc -> str -> str -> Process.reply * Svc.
Variables json_file prompt_template model : str.

(** X8. A run rewrites only the job file, and in it only what an
    attempt may change: the meta data, the number of chunks and the index
    and text of every chunk stay as they were, a chunk that was done is
    left exactly as it was, a failed attempt leaves the result as it was,
    and no chunk is pending afterwards. *)
Theorem process_chunks_job_after (e : Process.env) (w : @Process.world Svc)
    (d : data) :
  truthy (Process.OPENAI_KEY e) = true ->
  Process.fs w !! json_file = Some (JsonFile d) ->
  exists w' d',
    Process.process_chunks create e json_file prompt_template model w
    = Some (0, w') /\
    Process.fs w' !! json_file = Some (JsonFile d') /\
    (forall p, p <> json_file -> Process.fs w' !! p = Process.fs w !! p) /\
    meta_of d' = meta_of d /\
    length (chunks d') = length (chunks d) /\
    (forall j c, chunks d !! j = Some c ->
       exists c',
         chunks d' !! j = Some c' /\
         index c' = index c /\ text c' = text c /\
         status_of c' <> Pending /\
         (status_of c = Done -> c' = c) /\
         (status_of c' = Error -> result c' = result c)).
Proof.
  intros Hkey Hfile.
  destruct (process_chunks_effect create json_file prompt_template model e w d
              Hkey Hfile)
    as (w' & d' & Hrun & Hfile' & Hfs & Hmeta & Hlen & Hkeep & Hdone & _).
  exists w', d'. split; [exact Hrun|]. split; [exact Hfile'|].
  split; [exact Hfs|]. split; [exact Hmeta|]. split; [exact Hlen|].
  intros j c Hc.
  destruct (decide (status_of c = Done)) as [Hd | Hd].
  - exists c. split.
    + rewrite Hkeep; [exact Hc|]. intros Hj.
      apply not_done_lookup in Hj as (c0 & Hc0 & Hnd). congruence.
    + split; [reflexivity|]. split; [reflexivity|]. split; [congruence|].
      split; intros _; reflexivity.
  - assert (Hj : j ∈ Spec.not_done_from (chunks d) 0)
      by (apply not_done_lookup; exists c; split; assumption).
    destruct (Hdone j c Hj Hc) as [s Hs].
    eexists. split; [exact Hs|].
    split; [apply attempt_index|]. split; [apply attempt_text|].
    split; [rewrite attempt_status; destruct (Trace.reply_ok _); discriminate|].
    split; [intros H; contradiction|].
    destruct (create s model _).1 as [[[|a o]|]|msg]; simpl; intros H;
      first [reflexivity | discriminate].
Qed.

(** X9. After a run that had something to do, the last line is the
    summary, and its counters agree with the job file the run leaves:
    the total is the number of chunks, "processed" the number of chunks
    that were not done before, "success" the number of done chunks and
    "failed" the number of error chunks now, and the failed list is the
    list of the positions of the error chunks, in ascending order. *)
Theorem process_chunks_summary (e : Process.env) (w : @Process.world Svc)
    (d : data) :
  truthy (Process.OPENAI_KEY e) = true ->
  Process.fs w !! json_file = Some (JsonFile d) ->
  Spec.not_done_from (chunks d) 0 <> [] ->
  exists w' d' t,
    Process.process_chunks create e json_file prompt_template model w
    = Some (0, w') /\
    Process.fs w' !! json_file = Some (JsonFile d') /\
    last (Process.out w') = Some (Process.Summary t) /\
    Process.t_total t = len (chunks d') /\
    Process.processed t = len (filter (fun c => status_of c <> Done) (chunks d)) /\
    Process.success t = len (filter (fun c => status_of c = Done) (chunks d')) /\
    Process.failed t = len (filter (fun c => status_of c = Error) (chunks d')) /\
    Process.failed_chunks t = Z.of_nat <$> Spec.not_done_from (chunks d') 0.
Proof.
  intros Hkey Hfile Hsome.
  destruct (process_chunks_effect create json_file prompt_template model e w d
              Hkey Hfile)
    as (w' & d' & Hrun & Hfile' & _ & _ & Hlen & Hkeep & Hdone & evs & Hout &
        _ & _ & Hsum).
  destruct (Hsum Hsome) as (t & Hlast & Htot & Hproc & Hadd & Hfail & Hfc).
  exists w', d', t. split; [exact Hrun|]. split; [exact Hfile'|].
  assert (Herr : Trace.errors_among (chunks d') (Spec.not_done_from (chunks d) 0)
                 = Spec.not_done_from (chunks d') 0).
  { apply errors_among_not_done; [exact Hkeep|].
    intros j c Hj Hc. destruct (Hdone j c Hj Hc) as [s Hs]. eexists. exact Hs. }
  rewrite Herr in Hfc.
  assert (Hnp : forall c', c' ∈ chunks d' -> status_of c' <> Pending).
  { intros c' Hin. apply list_elem_of_lookup in Hin as [j Hj].
    destruct (decide (j ∈ Spec.not_done_from (chunks d) 0)) as [Hp | Hp].
    - pose proof Hp as Hp'. apply not_done_lookup in Hp' as (c & Hc & _).
      destruct (Hdone j c Hp Hc) as [s Hs]. rewrite Hs in Hj.
      injection Hj as <-. rewrite attempt_status.
      destruct (Trace.reply_ok _); discriminate.
    - rewrite (Hkeep j Hp) in Hj.
      destruct (decide (status_of c' = Done)) as [Hd | Hd]; [congruence|].
      exfalso. apply Hp. apply not_done_lookup. exists c'. split; assumption. }
  assert (Hcount : forall cs : list chunk,
             (forall c', c' ∈ cs -> status_of c' <> Pending) ->
             len (filter (fun c => status_of c = Error) cs)
             + len (filter (fun c => status_of c = Done) cs) = len cs).
  { clear. induction cs as [|c cs IH]; intros Hall; [reflexivity|].
    rewrite !filter_cons.
    assert (Hc : status_of c <> Pending) by (apply Hall; left).
    specialize (IH (fun c' Hin => Hall c' (list_elem_of_further _ _ _ Hin))).
    destruct (status_of c) eqn:Hs; try contradiction;
      repeat case_decide; try congruence; unfold len in *; simpl; lia. }
  assert (Hnd : forall cs : list chunk,
             len (filter (fun c => status_of c <> Done) cs)
             = len (Spec.not_done_from cs 0)).
  { clear. intros cs. generalize 0%nat.
    induction cs as [|c cs IH]; intros i; [reflexivity|].
    simpl. rewrite filter_cons. specialize (IH (S i)).
    case_bool_decide; case_decide; try contradiction;
      unfold len in *; simpl; lia. }
  pose proof (not_done_count (chunks d') 0) as Hc'.
  pose proof (Hcount (chunks d') Hnp) as Hc''.
  assert (Hl : len (chunks d') = len (chunks d)) by (unfold len; rewrite Hlen; reflexivity).
  assert (Hf : len (Process.failed_chunks t) = len (Spec.not_done_from (chunks d') 0)).
  { rewrite Hfc. unfold len. rewrite length_fmap. reflexivity. }
  split.
  { rewrite Hout. destruct evs as [|ev evs'] eqn:E; [discriminate|].
    rewrite <- E in *. rewrite last_app, Hlast. reflexivity. }
  split; [lia|]. split; [rewrite Hnd; exact Hproc|].
  split; [lia|]. split; [lia | exact Hfc].
Qed.

(** X10. A second run on what a first run left attempts exactly the
    chunks the first run left in error; when the first run printed a
    summary, these are the positions of its failed list, so a run without
    failure is followed by a run that sends no request. *)
Theorem process_chunks_rerun (e : Process.env) (w : @Process.world Svc)
    (d : data) :
  truthy (Process.OPENAI_KEY e) = true ->
  Process.fs w !! json_file = Some (JsonFile d) ->
  exists w1 d1 w2 evs2,
    Process.process_chunks create e json_file prompt_template model w
    = Some (0, w1) /\
    Process.fs w1 !! json_file = Some (JsonFile d1) /\
    Process.process_chunks create e json_file prompt_template model w1
    = Some (0, w2) /\
    Process.out w2 = Process.out w1 ++ evs2 /\
    Trace.attempted evs2
    = Z.of_nat <$> Trace.errors_among (chunks d1) (seq 0 (length (chunks d1))) /\
    (forall t, last (Process.out w1) = Some (Process.Summary t) ->
               Trace.attempted evs2 = Process.failed_chunks t).
Proof.
  intros Hkey Hfile.
  destruct (process_chunks_effect create json_file prompt_template model e w d
              Hkey Hfile)
    as (w1 & d1 & Hrun1 & Hfile1 & _ & _ & Hlen & Hkeep & Hdone & evs1 & Hout1 &
        _ & _ & Hsum).
  destruct (process_chunks_effect create json_file prompt_template model e w1 d1
              Hkey Hfile1)
    as (w2 & d2 & Hrun2 & _ & _ & _ & _ & _ & _ & evs2 & Hout2 & Hatt2 & _).
  assert (Herr : Trace.errors_among (chunks d1) (Spec.not_done_from (chunks d) 0)
                 = Spec.not_done_from (chunks d1) 0).
  { apply errors_among_not_done; [exact Hkeep|].
    intros j c Hj Hc. destruct (Hdone j c Hj Hc) as [s Hs]. eexists. exact Hs. }
  assert (Hall : Trace.errors_among (chunks d1) (seq 0 (length (chunks d1)))
                 = Spec.not_done_from (chunks d1) 0).
  { apply sorted_lt_ext.
    - apply sorted_lt_filter. clear. generalize 0%nat.
      induction (length (chunks d1)) as [|n IH]; intros k; simpl; constructor.
      + apply IH.
      + apply Forall_forall. intros x Hx. apply elem_of_seq in Hx. lia.
    - apply not_done_from_sorted.
    - intros j. unfold Trace.errors_among.
      rewrite list_elem_of_filter, elem_of_seq, (not_done_lookup (chunks d1) j).
      split.
      + intros [Hst _]. destruct (chunks d1 !! j) as [c'|]; [|discriminate].
        exists c'. split; [reflexivity|]. simpl in Hst. congruence.
      + intros (c' & Hc' & Hnd).
        split; [|apply lookup_lt_Some in Hc'; lia].
        assert (Hj : j ∈ Spec.not_done_from (chunks d1) 0)
          by (apply not_done_lookup; exists c'; split; assumption).
        rewrite <- Herr in Hj. unfold Trace.errors_among in Hj.
        apply list_elem_of_filter in Hj as [Hst _]. exact Hst. }
  exists w1, d1, w2, evs2.
  split; [exact Hrun1|]. split; [exact Hfile1|]. split; [exact Hrun2|].
  split; [exact Hout2|]. split; [rewrite Hall; exact Hatt2|].
  intros t Hlast.
  destruct (Spec.not_done_from (chunks d) 0) as [|i rest] eqn:Hpending.
  - exfalso. clear Hsum.
    destruct (process_chunks_effect create json_file prompt_template model e w d
                Hkey Hfile) as (w1' & _ & Hrun1' & _).
    rewrite Hrun1 in Hrun1'. injection Hrun1' as <-.
    unfold Process.process_chunks in Hrun1.
    rewrite Hkey, Hfile, scan_full, Hpending in Hrun1. cbn [negb app] in Hrun1.
    injection Hrun1 as <-. unfold Process.emit in Hlast. cbn [Process.out] in Hlast.
    rewrite last_snoc in Hlast. discriminate.
  - destruct (Hsum ltac:(discriminate)) as (t' & Hlast' & _ & _ & _ & _ & Hfc).
    rewrite Hout1 in Hlast.
    destruct evs1 as [|ev evs1'] eqn:E; [discriminate|]. rewrite <- E in *.
    rewrite last_app, Hlast' in Hlast. injection Hlast as <-.
    rewrite Hatt2, Hfc, Herr. reflexivity.
Qed.

(** X11. For a service whose reply depends on the request only, the
    job file after a run is the job file before it with every chunk that
    was not done replaced by the outcome of its attempt. *)
Theorem process_chunks_request_determined (f : str -> str -> Process.reply)
    (e : Process.env) (w : @Process.world Svc) (d : data) :
  (forall s m p, (create s m p).1 = f m p) ->
  truthy (Process.OPENAI_KEY e) = true ->
  Process.fs w !! json_file = Some (JsonFile d) ->
  exists w',
    Process.process_chunks create e json_file prompt_template model w
    = Some (0, w') /\
    Process.fs w' !! json_file
    = Some (JsonFile
              (Data (meta_of d)
                    (Trace.processed f prompt_template model <$> chunks d))).
Proof.
  intros Hpure Hkey Hfile.
  destruct (process_chunks_effect create json_file prompt_template model e w d
              Hkey Hfile)
    as (w' & d' & Hrun & Hfile' & _ & Hmeta & Hlen & Hkeep & Hdone & _).
  exists w'. split; [exact Hrun|]. rewrite Hfile'. do 2 f_equal.
  destruct d' as [m' cs']. cbn [meta_of chunks] in *. rewrite Hmeta. f_equal.
  apply list_eq. intros j. rewrite list_lookup_fmap.
  destruct (chunks d !! j) as [c|] eqn:Hc.
  - simpl. unfold Trace.processed. case_bool_decide as Hd.
    + rewrite Hkeep; [exact Hc|]. intros Hj.
      apply not_done_lookup in Hj as (c0 & Hc0 & Hnd). congruence.
    + assert (Hj : j ∈ Spec.not_done_from (chunks d) 0)
        by (apply not_done_lookup; exists c; split; assumption).
      destruct (Hdone j c Hj Hc) as [s Hs]. rewrite Hs, Hpure. reflexivity.
  - simpl. apply lookup_ge_None. rewrite Hlen. apply lookup_ge_None. exact Hc.
Qed.

End ProcessRunProperties.

Lemma process_chunks_job_after_witness :
  let w := Sample.world_with 0%nat Sample.mixed in
  (truthy (Process.OPENAI_KEY Sample.keyed) = true /\
   Process.fs w !! Sample.job_file = Some (JsonFile Sample.mixed)) /\
  exists w' d',
    Process.process_chunks Sample.flaky Sample.keyed Sample.job_file
      Sample.template Sample.gpt w = Some (0, w') /\
    Process.fs w' !! Sample.job_file = Some (JsonFile d') /\
    length (chunks d') = length (chunks Sample.mixed).
Proof.
  intros w.
  assert (H1 : truthy (Process.OPENAI_KEY Sample.keyed) = true) by reflexivity.
  assert (H2 : Process.fs w !! Sample.job_file = Some (JsonFile Sample.mixed))
    by apply lookup_singleton_eq.
  split; [split; assumption|].
  destruct (process_chunks_job_after Sample.flaky Sample.job_file Sample.template
              Sample.gpt Sample.keyed w Sample.mixed H1 H2)
    as (w' & d' & Hrun & Hfile & _ & _ & Hlen & _).
  exists w', d'. repeat split; assumption.
Defined.

Lemma process_chunks_summary_witness :
  let w := Sample.world_with 0%nat Sample.mixed in
  (truthy (Process.OPENAI_KEY Sample.keyed) = true /\
   Process.fs w !! Sample.job_file = Some (JsonFile Sample.mixed) /\
   Spec.not_done_from (chunks Sample.mixed) 0 <> []) /\
  exists w' d' t,
    Process.process_chunks Sample.flaky Sample.keyed Sample.job_file
      Sample.template Sample.gpt w = Some (0, w') /\
    last (Process.out w') = Some (Process.Summary t) /\
    Process.failed_chunks t = Z.of_nat <$> Spec.not_done_from (chunks d') 0.
Proof.
  intros w.
  assert (H1 : truthy (Process.OPENAI_KEY Sample.keyed) = true) by reflexivity.
  assert (H2 : Process.fs w !! Sample.job_file = Some (JsonFile Sample.mixed))
    by apply lookup_singleton_eq.
  assert (H3 : Spec.not_done_from (chunks Sample.mixed) 0 <> []) by discriminate.
  split; [repeat split; assumption|].
  destruct (process_chunks_summary Sample.flaky Sample.job_file Sample.template
              Sample.gpt Sample.keyed w Sample.mixed H1 H2 H3)
    as (w' & d' & t & Hrun & _ & Hlast & _ & _ & _ & _ & Hfc).
  exists w', d', t. repeat split; assumption.
Defined.

(** The run of the summary example, evaluated: the first request fails,
    the second succeeds. *)
Example process_flaky_run :
  (r ← Process.process_chunks Sample.flaky Sample.keyed Sample.job_file
         Sample.template Sample.gpt (Sample.world_with 0%nat Sample.mixed);
   Some (r.1, last (Process.out r.2),
         status_of <$> (from_option chunks []
            (match Process.fs r.2 !! Sample.job_file with
             | Some (JsonFile d) => Some d
             | _ => None
             end))))
  = Some (0, Some (Process.Summary (Process.Tracker 3 2 2 1 [1])),
          [Done; Error; Done]).
Proof. vm_compute. reflexivity. Qed.

Lemma process_chunks_rerun_witness :
  let w := Sample.world_with 0%nat Sample.mixed in
  (truthy (Process.OPENAI_KEY Sample.keyed) = true /\
   Process.fs w !! Sample.job_file = Some (JsonFile Sample.mixed)) /\
  exists w1 w2 evs2,
    Process.process_chunks Sample.flaky Sample.keyed Sample.job_file
      Sample.template Sample.gpt w = Some (0, w1) /\
    Process.process_chunks Sample.flaky Sample.keyed Sample.job_file
      Sample.template Sample.gpt w1 = Some (0, w2) /\
    Process.out w2 = Process.out w1 ++ evs2 /\
    (forall t, last (Process.out w1) = Some (Process.Summary t) ->
               Trace.attempted evs2 = Process.failed_chunks t).
Proof.
  intros w.
  assert (H1 : truthy (Process.OPENAI_KEY Sample.keyed) = true) by reflexivity.
  assert (H2 : Process.fs w !! Sample.job_file = Some (JsonFile Sample.mixed))
    by apply lookup_singleton_eq.
  split; [split; assumption|].
  destruct (process_chunks_rerun Sample.flaky Sample.job_file Sample.template
              Sample.gpt Sample.keyed w Sample.mixed H1 H2)
    as (w1 & d1 & w2 & evs2 & Hrun1 & _ & Hrun2 & Hout & _ & Hfailed).
  exists w1, w2, evs2. repeat split; assumption.
Defined.

Lemma process_chunks_request_determined_witness :
  let w := Sample.world_with 0%nat Sample.mixed in
  let f := fun (m p : str) => Process.Completion (Some p) in
  ((forall s m p, (Sample.echo s m p).1 = f m p) /\
   truthy (Process.OPENAI_KEY Sample.keyed) = true /\
   Process.fs w !! Sample.job_file = Some (JsonFile Sample.mixed)) /\
  exists w',
    Process.process_chunks Sample.echo Sample.keyed Sample.job_file
      Sample.template Sample.gpt w = Some (0, w') /\
    Process.fs w' !! Sample.job_file
    = Some (JsonFile
              (Data (meta_of Sample.mixed)
                    (Trace.processed f Sample.template Sample.gpt
                       <$> chunks Sample.mixed))).
Proof.
  intros w f.
  assert (H0 : forall s m p, (Sample.echo s m p).1 = f m p)
    by (intros; reflexivity).
  assert (H1 : truthy (Process.OPENAI_KEY Sample.keyed) = true) by reflexivity.
  assert (H2 : Process.fs w !! Sample.job_file = Some (JsonFile Sample.mixed))
    by apply lookup_singleton_eq.
  split; [repeat split; assumption|].
  exact (process_chunks_request_determined Sample.echo Sample.job_file
           Sample.template Sample.gpt f Sample.keyed w Sample.mixed H0 H1 H2).
Defined.

(** ** The model named in the requests *)

Section ProcessMain.

Context {Svc : Type}.
Variable create : Svc -> str -> str -> Process.reply * Svc.

(** X12. When the job file exists and the API key is set, [main] sends
    one request per chunk that is not done, and every one of them names
    the model of the MODEL_NAME variable when that is set and not empty,
    and the model of the command line otherwise. *)
Theorem process_main_model (e : Process.env) (json_file prompt model_arg : str)
    (w : @Process.world Svc) (d : data) :
  truthy (Process.OPENAI_KEY e) = true ->
  Process.fs w !! json_file = Some (JsonFile d) ->
  exists w' evs,
    Process.main create e json_file prompt model_arg w = Some (0, w') /\
    Process.out w' = Process.out w ++ evs /\
    length (Trace.requests evs)
    = length (filter (fun c => status_of c <> Done) (chunks d)) /\
    (forall name, Process.MODEL_NAME e = Some name -> name <> [] ->
                  forall rq, rq ∈ Trace.requests evs -> rq.1 = name) /\
    (truthy (Process.MODEL_NAME e) = false ->
     forall rq, rq ∈ Trace.requests evs -> rq.1 = model_arg).
Proof.
  intros Hkey Hfile. unfold Process.main.
  rewrite bool_decide_eq_false_2 by (rewrite Hfile; discriminate).
  set (model := if truthy (Process.MODEL_NAME e) then _ else _).
  destruct (process_chunks_effect create json_file prompt model e w d Hkey Hfile)
    as (w' & _ & Hrun & _ & _ & _ & _ & _ & _ & evs & Hout & _ & Hreq & _).
  exists w', evs. split; [exact Hrun|]. split; [exact Hout|].
  assert (Hall : forall rq, rq ∈ Trace.requests evs -> rq.1 = model).
  { intros rq Hin. rewrite Hreq in Hin.
    apply list_elem_of_fmap in Hin as (i & -> & _). reflexivity. }
  split.
  { rewrite Hreq, length_fmap. clear. generalize 0%nat.
    induction (chunks d) as [|c cs IH]; intros i; [reflexivity|].
    simpl. rewrite filter_cons. specialize (IH (S i)).
    case_bool_decide; case_decide; try contradiction; simpl; lia. }
  split.
  - intros name Hname Hne rq Hin. rewrite (Hall rq Hin).
    unfold model. rewrite Hname. destruct name; [contradiction | reflexivity].
  - intros Hunset rq Hin. rewrite (Hall rq Hin).
    unfold model. rewrite Hunset. reflexivity.
Qed.

End ProcessMain.

Lemma process_main_model_witness :
  let w := Sample.world_with 0%nat Sample.mixed in
  let e := Process.Env (Some (lit "sk-test")) (Some (lit "gpt-env")) in
  (truthy (Process.OPENAI_KEY e) = true /\
   Process.fs w !! Sample.job_file = Some (JsonFile Sample.mixed)) /\
  exists w' evs,
    Process.main Sample.echo e Sample.job_file Sample.template Sample.gpt w
    = Some (0, w') /\
    Process.out w' = Process.out w ++ evs /\
    forall rq, rq ∈ Trace.requests evs -> rq.1 = lit "gpt-env".
Proof.
  intros w e.
  assert (H1 : truthy (Process.OPENAI_KEY e) = true) by reflexivity.
  assert (H2 : Process.fs w !! Sample.job_file = Some (JsonFile Sample.mixed))
    by apply lookup_singleton_eq.
  split; [split; assumption|].
  destruct (process_main_model Sample.echo e Sample.job_file Sample.template
              Sample.gpt w Sample.mixed H1 H2)
    as (w' & evs & Hrun & Hout & _ & Hname & _).
  exists w', evs. split; [exact Hrun|]. split; [exact Hout|].
  apply (Hname (lit "gpt-env")); [reflexivity | discriminate].
Defined.

(** ** What rebuild writes and reports *)

Lemma status_partition (cs : list chunk) :
  len (filter (fun c => status_of c = Done) cs)
  + len (filter (fun c => status_of c = Error) cs)
  + len (filter (fun c => status_of c = Pending) cs) = len cs.
Proof.
  induction cs as [|c cs IH]; [reflexivity|].
  rewrite !filter_cons.
  destruct (status_of c) eqn:Hs; repeat case_decide; try congruence;
    unfold len in *; simpl; lia.
Qed.

Lemma nonempty_true {A} (l : list A) : Rebuild.nonempty l = true -> 0 < len l.
Proof. destruct l; unfold len; simpl; intros; [discriminate | lia]. Qed.

Lemma nonempty_false {A} (l : list A) : Rebuild.nonempty l = false -> len l = 0.
Proof. destruct l; unfold len; simpl; intros; [lia | discriminate]. Qed.

(** X13. Rebuild writes at most one file: the one named by the output
    argument when that is given and not empty, and otherwise the stem of
    the job name without "_chunked", followed by "_final.txt". With a
    done chunk the file is written there; without one nothing is written
    at all. Unless the output is the job file itself, the job file is
    left as it was. *)
Theorem rebuild_chunks_writes_one_file (stem : str -> str) (fs : gmap str file)
    (json_file : str) (output_file : option str) (d : data) :
  fs !! json_file = Some (JsonFile d) ->
  let path :=
    if truthy output_file then default [] output_file
    else replace (stem json_file) (lit "_chunked") [] ++ lit "_final.txt" in
  exists code fs' out,
    Rebuild.rebuild_chunks stem fs json_file output_file = Some (code, fs', out) /\
    (forall p, p <> path -> fs' !! p = fs !! p) /\
    (filter (fun c => status_of c = Done) (chunks d) = [] -> fs' = fs) /\
    (filter (fun c => status_of c = Done) (chunks d) <> [] ->
     exists rebuilt_text, fs' !! path = Some (TextFile rebuilt_text)) /\
    (path <> json_file -> fs' !! json_file = Some (JsonFile d)).
Proof.
  intros Hfile path.
  unfold Rebuild.rebuild_chunks. rewrite Hfile, classify_eq. cbn [app].
  fold path.
  destruct (filter (fun c => status_of c = Done) (chunks d)) as [|c0 dones];
    cbn [Rebuild.nonempty negb].
  - eexists _, _, _. split; [reflexivity|].
    split; [reflexivity|]. split; [reflexivity|].
    split; [intros H; contradiction|]. intros _. exact Hfile.
  - eexists _, _, _. split; [reflexivity|].
    split; [intros p Hp; apply lookup_insert_ne; congruence|].
    split; [intros H; discriminate|].
    split; [intros _; eexists; apply lookup_insert_eq|].
    intros Hp. rewrite lookup_insert_ne by exact Hp. exact Hfile.
Qed.

Lemma rebuild_chunks_writes_one_file_witness :
  Sample.disk Sample.gapped !! Sample.job_file = Some (JsonFile Sample.gapped) /\
  exists code fs' out,
    Rebuild.rebuild_chunks Sample.stem (Sample.disk Sample.gapped)
      Sample.job_file (Some []) = Some (code, fs', out) /\
    (forall p, p <> lit "book_final.txt" ->
               fs' !! p = Sample.disk Sample.gapped !! p) /\
    fs' !! Sample.job_file = Some (JsonFile Sample.gapped).
Proof.
  assert (H : Sample.disk Sample.gapped !! Sample.job_file
              = Some (JsonFile Sample.gapped)) by apply lookup_singleton_eq.
  split; [exact H|].
  destruct (rebuild_chunks_writes_one_file Sample.stem (Sample.disk Sample.gapped)
              Sample.job_file (Some []) Sample.gapped H)
    as (code & fs' & out & Hrun & Hother & _ & _ & Hjob).
  exists code, fs', out. split; [exact Hrun|]. split; [exact Hother|].
  apply Hjob. discriminate.
Defined.

(** X14. The counts rebuild prints add up to the number of chunks, and
    the closing note on an incomplete output is printed exactly when
    something was rebuilt and some chunk is not done; the number it gives
    is the number of chunks that are not done. *)
Theorem rebuild_chunks_counts (stem : str -> str) (fs : gmap str file)
    (json_file : str) (output_file : option str) (d : data) :
  fs !! json_file = Some (JsonFile d) ->
  let done_count := len (filter (fun c => status_of c = Done) (chunks d)) in
  exists code fs' out,
    Rebuild.rebuild_chunks stem fs json_file output_file = Some (code, fs', out) /\
    (forall total completed errors pending,
        Rebuild.Statistics total completed errors pending ∈ out ->
        total = len (chunks d) /\ completed = done_count /\
        completed + errors + pending = total) /\
    (forall missing,
        Rebuild.Incomplete missing ∈ out <->
        0 < done_count /\ 0 < missing /\ missing = len (chunks d) - done_count).
Proof.
  intros Hfile done_count.
  pose proof (status_partition (chunks d)) as Hpart.
  unfold Rebuild.rebuild_chunks. rewrite Hfile, classify_eq. cbn [app].
  set (dones := filter (fun c => status_of c = Done) (chunks d)) in *.
  set (errors := index <$> filter (fun c => status_of c = Error) (chunks d)).
  set (pendings := index <$> filter (fun c => status_of c = Pending) (chunks d)).
  assert (He : len errors = len (filter (fun c => status_of c = Error) (chunks d)))
    by (unfold errors, len; rewrite length_fmap; reflexivity).
  assert (Hp : len pendings
               = len (filter (fun c => status_of c = Pending) (chunks d)))
    by (unfold pendings, len; rewrite length_fmap; reflexivity).
  assert (Hsorted : len (Rebuild.sort_by_index dones) = len dones)
    by (unfold len; rewrite (Permutation_length (sort_by_index_perm dones));
        reflexivity).
  unfold done_count.
  destruct (Rebuild.nonempty dones) eqn:Ed;
    destruct (Rebuild.nonempty errors) eqn:Ee;
    destruct (Rebuild.nonempty pendings) eqn:Ep;
    first [apply nonempty_true in Ed | apply nonempty_false in Ed];
    first [apply nonempty_true in Ee | apply nonempty_false in Ee];
    first [apply nonempty_true in Ep | apply nonempty_false in Ep];
    cbn [negb orb Rebuild.say_if app];
    eexists _, _, _; (split; [reflexivity|]); split.
  all: try (intros total completed errs pend Hin;
            repeat (apply elem_of_cons in Hin as [Hin | Hin];
                    [first [discriminate | injection Hin as -> -> -> ->; lia]|]);
            inversion Hin).
  all: intros missing; split;
    [ intros Hin;
      repeat (apply elem_of_cons in Hin as [Hin | Hin];
              [first [discriminate | injection Hin as ->; lia]|]);
      inversion Hin
    | intros (H1 & H2 & ->);
      first [ lia
            | replace (len (chunks d) - len dones)
                with (len errors + len pendings) by lia;
              list_mem ] ].
Qed.

Lemma rebuild_chunks_counts_witness :
  Sample.disk Sample.gapped !! Sample.job_file = Some (JsonFile Sample.gapped) /\
  exists code fs' out,
    Rebuild.rebuild_chunks Sample.stem (Sample.disk Sample.gapped)
      Sample.job_file None = Some (code, fs', out) /\
    Rebuild.Incomplete 1 ∈ out.
Proof.
  assert (H : Sample.disk Sample.gapped !! Sample.job_file
              = Some (JsonFile Sample.gapped)) by apply lookup_singleton_eq.
  split; [exact H|].
  destruct (rebuild_chunks_counts Sample.stem (Sample.disk Sample.gapped)
              Sample.job_file None Sample.gapped H)
    as (code & fs' & out & Hrun & _ & Hinc).
  exists code, fs', out. split; [exact Hrun|].
  apply Hinc. vm_compute. repeat split; reflexivity.
Defined.

(** ** Jobs whose chunks are numbered by position *)

Lemma numbered_sorted (cs : list chunk) (k : nat) :
  (forall i c, cs !! i = Some c -> index c = Z.of_nat (k + i)) ->
  StronglySorted Spec.by_index cs.
Proof.
  revert k. induction cs as [|c cs IH]; intros k Hnum; constructor.
  - apply (IH (S k)). intros i c' Hc'.
    rewrite (Hnum (S i) c' Hc'). f_equal. lia.
  - apply Forall_forall. intros c' Hin.
    apply list_elem_of_lookup in Hin as [i Hi].
    unfold Spec.by_index.
    rewrite (Hnum 0%nat c eq_refl), (Hnum (S i) c' Hi). lia.
Qed.

Lemma sorted_filter {A} (R : relation A) (P : A -> Prop)
    `{forall x, Decision (P x)} (l : list A) :
  StronglySorted R l -> StronglySorted R (filter P l).
Proof.
  induction 1 as [|x l _ IH Hx]; [constructor|].
  rewrite filter_cons. case_decide; [|exact IH].
  constructor; [exact IH|].
  apply Forall_forall. intros y Hy. apply list_elem_of_filter in Hy as [_ Hy].
  rewrite Forall_forall in Hx. apply Hx. exact Hy.
Qed.

Lemma filter_all {A} (P : A -> Prop) `{forall x, Decision (P x)} (l : list A) :
  Forall P l -> filter P l = l.
Proof.
  induction 1 as [|x l Hx _ IH]; [reflexivity|].
  rewrite filter_cons. case_decide; [|contradiction]. rewrite IH. reflexivity.
Qed.

(** X15. When the chunks of the job carry their position as index, as
    they do in a job written by chunk.py and processed by process.py, the
    text that rebuild writes is the results of the done chunks in the
    order of the job file. *)
Theorem rebuild_chunks_in_file_order (stem : str -> str) (fs : gmap str file)
    (json_file : str) (output_file : option str) (d : data) :
  fs !! json_file = Some (JsonFile d) ->
  (forall i c, chunks d !! i = Some c -> index c = Z.of_nat i) ->
  filter (fun c => status_of c = Done) (chunks d) <> [] ->
  exists fs' out path,
    Rebuild.rebuild_chunks stem fs json_file output_file = Some (0, fs', out) /\
    fs' !! path
    = Some (TextFile
              (concat (Spec.output_of
                         <$> filter (fun c => status_of c = Done) (chunks d)))).
Proof.
  intros Hfile Hnum Hdone.
  unfold Rebuild.rebuild_chunks. rewrite Hfile, classify_eq. cbn [app].
  destruct (filter (fun c => status_of c = Done) (chunks d)) as [|c0 dones] eqn:E;
    [contradiction|].
  cbn [Rebuild.nonempty negb].
  eexists _, _, _. split; [reflexivity|].
  rewrite lookup_insert_eq. do 2 f_equal.
  rewrite concat_results_eq. cbn [app].
  rewrite sort_by_index_sorted_id; [reflexivity|].
  rewrite <- E. apply sorted_filter. apply (numbered_sorted _ 0). exact Hnum.
Qed.

Lemma rebuild_chunks_in_file_order_witness :
  (Sample.disk Sample.gapped !! Sample.job_file = Some (JsonFile Sample.gapped) /\
   (forall i c, chunks Sample.gapped !! i = Some c -> index c = Z.of_nat i) /\
   filter (fun c => status_of c = Done) (chunks Sample.gapped) <> []) /\
  exists fs' out path,
    Rebuild.rebuild_chunks Sample.stem (Sample.disk Sample.gapped)
      Sample.job_file None = Some (0, fs', out) /\
    fs' !! path
    = Some (TextFile
              (concat (Spec.output_of
                         <$> filter (fun c => status_of c = Done)
                               (chunks Sample.gapped)))).
Proof.
  assert (H1 : Sample.disk Sample.gapped !! Sample.job_file
               = Some (JsonFile Sample.gapped)) by apply lookup_singleton_eq.
  assert (H2 : forall i c, chunks Sample.gapped !! i = Some c ->
                           index c = Z.of_nat i).
  { intros [|[|[|i]]] c H; simpl in H; try discriminate;
      injection H as <-; reflexivity. }
  assert (H3 : filter (fun c => status_of c = Done) (chunks Sample.gapped) <> [])
    by discriminate.
  split; [repeat split; assumption|].
  exact (rebuild_chunks_in_file_order Sample.stem (Sample.disk Sample.gapped)
           Sample.job_file None Sample.gapped H1 H2 H3).
Defined.

(** ** The three scripts in sequence *)

Section Pipeline.

Context {Svc : Type}.
Variable create : Svc -> str -> str -> Process.reply * Svc.
Variable f : str -> str -> Process.reply.

(** X16. Chunking a non-empty document, processing the job with a
    service whose reply depends on the request only and is a non-empty
    text for every segment, and rebuilding with the default output name:
    the three entry points exit with 0, and the file rebuild names by its
    default rule (the stem of the job file name without "_chunked",
    followed by "_final.txt") holds the replies to the segments,
    concatenated in the order of the document. When the stem of the job
    file name is the stem of the document name followed by "_chunked",
    and the stem of the document name has no underscore, that file is the
    stem of the document name followed by "_final.txt". *)
Theorem pipeline_output (stem : str -> str) (e : Process.env)
    (fs : gmap str file) (input_file doc prompt model_arg : str) (size : Z)
    (s0 : Svc) :
  (forall s m p, (create s m p).1 = f m p) ->
  fs !! input_file = Some (TextFile doc) ->
  1 <= size -> doc <> [] ->
  truthy (Process.OPENAI_KEY e) = true ->
  let model :=
    if truthy (Process.MODEL_NAME e) then default model_arg (Process.MODEL_NAME e)
    else model_arg in
  let job := stem input_file ++ lit "_chunked.json" in
  let answer := fun seg => f model (replace prompt (lit "{text}") seg) in
  (forall segs seg, Chunk.chunk_text doc size = Some segs -> seg ∈ segs ->
                    Trace.reply_ok (answer seg) = true) ->
  exists segs fs1 w2 fs3 out,
    Chunk.chunk_text doc size = Some segs /\
    Chunk.main stem fs input_file size = Some (0, fs1) /\
    Process.main create e job prompt model_arg (Process.World fs1 s0 [])
    = Some (0, w2) /\
    Rebuild.main stem (Process.fs w2) job None = Some (0, fs3, out) /\
    fs3 !! (replace (stem job) (lit "_chunked") [] ++ lit "_final.txt")
    = Some (TextFile
              (concat ((fun seg => Trace.content_of (answer seg)) <$> segs))) /\
    (stem job = stem input_file ++ lit "_chunked" ->
     "_"%char ∉ stem input_file ->
     fs3 !! (stem input_file ++ lit "_final.txt")
     = Some (TextFile
               (concat ((fun seg => Trace.content_of (answer seg)) <$> segs)))).
Proof.
  intros Hpure Hfile Hsize Hne Hkey model job answer Hok.
  destruct (chunk_text_facts doc size Hsize) as (segs & Hrun & Hcat & _).
  assert (Hsegs : segs <> []) by (intros ->; apply Hne; symmetry; exact Hcat).
  specialize (Hok segs).
  set (g := fun (i : nat) (seg : str) => Chunk_ (Z.of_nat i) seg Pending None None).
  set (d0 := Data (Meta (stem input_file) size (len segs)) (imap g segs)).
  set (fs1 := <[job := JsonFile d0]> fs).
  assert (Hmain1 : Chunk.main stem fs input_file size = Some (0, fs1)).
  { unfold Chunk.main.
    rewrite bool_decide_eq_false_2 by (rewrite Hfile; discriminate).
    unfold Chunk.create_chunked_file. rewrite Hfile, Hrun. reflexivity. }
  assert (Hfile1 : Process.fs (Process.World fs1 s0 []) !! job = Some (JsonFile d0))
    by apply lookup_insert_eq.
  destruct (process_chunks_effect create job prompt model e
              (Process.World fs1 s0 []) d0 Hkey Hfile1)
    as (w2 & d2 & Hrun2 & Hfile2 & _ & _ & Hlen & _ & Hdone & _).
  assert (Hmain2 : Process.main create e job prompt model_arg
                     (Process.World fs1 s0 []) = Some (0, w2)).
  { unfold Process.main.
    case_bool_decide as Hnone; [|exact Hrun2].
    exfalso.
    assert (X : None = Some (JsonFile d0))
      by (etransitivity; [symmetry; exact Hnone | exact Hfile1]).
    discriminate. }
  set (h := fun (i : nat) (seg : str) =>
              Chunk_ (Z.of_nat i) seg Done
                     (Some (Trace.content_of (answer seg))) (Some None)).
  assert (Hcs : chunks d2 = imap h segs).
  { apply list_eq. intros j. rewrite list_lookup_imap.
    destruct (segs !! j) as [seg|] eqn:Hseg.
    - assert (Hc : chunks d0 !! j = Some (g j seg))
        by (cbn [d0 chunks]; rewrite list_lookup_imap, Hseg; reflexivity).
      assert (Hj : j ∈ Spec.not_done_from (chunks d0) 0)
        by (apply not_done_lookup; exists (g j seg); split;
            [exact Hc | discriminate]).
      destruct (Hdone j _ Hj Hc) as [s Hs]. rewrite Hs, Hpure.
      cbn [g text]. fold (answer seg).
      assert (Hin : seg ∈ segs) by (apply list_elem_of_lookup; exists j; exact Hseg).
      specialize (Hok seg Hrun Hin). unfold h. simpl.
      destruct (answer seg) as [[[|a o]|]|msg]; try discriminate. reflexivity.
    - simpl. apply lookup_ge_None. rewrite Hlen. cbn [d0 chunks].
      rewrite length_imap. apply lookup_ge_None. exact Hseg. }
  assert (Hall : Forall (fun c => status_of c = Done) (imap h segs)).
  { apply Forall_lookup. intros j c Hc. rewrite list_lookup_imap in Hc.
    destruct (segs !! j); [|discriminate]. injection Hc as <-. reflexivity. }
  assert (Hnum : forall i c, imap h segs !! i = Some c -> index c = Z.of_nat i).
  { intros j c Hc. rewrite list_lookup_imap in Hc.
    destruct (segs !! j); [|discriminate]. injection Hc as <-. reflexivity. }
  assert (Hn : Rebuild.nonempty (imap h segs) = true)
    by (destruct segs; [contradiction | reflexivity]).
  assert (Hout : Spec.output_of <$> imap h segs
                 = (fun seg => Trace.content_of (answer seg)) <$> segs).
  { apply list_eq. intros j. rewrite !list_lookup_fmap, list_lookup_imap.
    destruct (segs !! j); reflexivity. }
  assert (Htext : Rebuild.concat_results (Rebuild.sort_by_index (imap h segs)) []
                  = concat ((fun seg => Trace.content_of (answer seg)) <$> segs)).
  { rewrite concat_results_eq. cbn [app].
    rewrite (sort_by_index_sorted_id _ (numbered_sorted _ 0 Hnum)).
    rewrite Hout. reflexivity. }
  exists segs, fs1, w2.
  unfold Rebuild.main.
  rewrite bool_decide_eq_false_2 by (rewrite Hfile2; discriminate).
  unfold Rebuild.rebuild_chunks. rewrite Hfile2, classify_eq. cbn [app truthy].
  rewrite Hcs, (filter_all _ _ Hall), Hn. cbn [negb]. rewrite Htext.
  eexists _, _. split; [exact Hrun|]. split; [exact Hmain1|].
  split; [exact Hmain2|]. split; [reflexivity|].
  split; [apply lookup_insert_eq|].
  intros Hstem Hus.
  assert (Hpath : replace (stem job) (lit "_chunked") [] = stem input_file).
  { rewrite Hstem.
    pose proof (replace_first (stem input_file) (lit "chunked") [] []
                  "_"%char Hus) as E.
    change ("_"%char :: lit "chunked") with (lit "_chunked") in E.
    rewrite !app_nil_r in E. exact E. }
  rewrite Hpath. apply lookup_insert_eq.
Qed.

End Pipeline.

Lemma pipeline_output_witness :
  let doc := lit "Hello world. Foo bar," in
  let fs : gmap str file := {[ lit "book.txt" := TextFile doc ]} in
  let f := fun (m p : str) => Process.Completion (Some p) in
  let answer := fun seg => f Sample.gpt (replace (lit "{text}") (lit "{text}") seg) in
  ((forall s m p, (Sample.echo s m p).1 = f m p) /\
   fs !! lit "book.txt" = Some (TextFile doc) /\
   1 <= 10 /\ doc <> [] /\
   truthy (Process.OPENAI_KEY Sample.keyed) = true /\
   (forall segs seg, Chunk.chunk_text doc 10 = Some segs -> seg ∈ segs ->
                     Trace.reply_ok (answer seg) = true) /\
   Sample.path_stem (Sample.path_stem (lit "book.txt") ++ lit "_chunked.json")
   = Sample.path_stem (lit "book.txt") ++ lit "_chunked" /\
   ("_"%char ∉ Sample.path_stem (lit "book.txt"))) /\
  exists (segs : list str) (fs3 : gmap str file),
    Chunk.chunk_text doc 10 = Some segs /\
    Sample.path_stem (lit "book.txt") ++ lit "_final.txt" = lit "book_final.txt" /\
    fs3 !! lit "book_final.txt"
    = Some (TextFile
              (concat ((fun seg => Trace.content_of (answer seg)) <$> segs))).
Proof.
  intros doc fs f answer.
  assert (H0 : forall s m p, (Sample.echo s m p).1 = f m p) by (intros; reflexivity).
  assert (H1 : fs !! lit "book.txt" = Some (TextFile doc))
    by apply lookup_singleton_eq.
  assert (H2 : 1 <= 10) by lia.
  assert (H3 : doc <> []) by discriminate.
  assert (H4 : truthy (Process.OPENAI_KEY Sample.keyed) = true) by reflexivity.
  assert (H5 : forall segs seg, Chunk.chunk_text doc 10 = Some segs ->
                                seg ∈ segs ->
                                Trace.reply_ok (answer seg) = true).
  { intros segs seg Hrun Hin.
    change (Chunk.chunk_text doc 10)
      with (Some [lit "Hello "; lit "world."; lit " Foo bar,"]) in Hrun.
    injection Hrun as <-.
    repeat (apply elem_of_cons in Hin as [-> | Hin]; [reflexivity|]).
    inversion Hin. }
  assert (H6 : Sample.path_stem (Sample.path_stem (lit "book.txt")
                                 ++ lit "_chunked.json")
               = Sample.path_stem (lit "book.txt") ++ lit "_chunked")
    by reflexivity.
  assert (H7 : "_"%char ∉ Sample.path_stem (lit "book.txt")).
  { intros Hin. change (Sample.path_stem (lit "book.txt")) with (lit "book") in Hin.
    repeat (apply elem_of_cons in Hin as [Hin | Hin]; [discriminate|]).
    inversion Hin. }
  split; [repeat split; assumption|].
  destruct (pipeline_output Sample.echo f Sample.path_stem Sample.keyed fs
              (lit "book.txt") doc (lit "{text}") Sample.gpt 10 0%nat
              H0 H1 H2 H3 H4 H5)
    as (segs & fs1 & w2 & fs3 & out & Hrun & _ & _ & _ & _ & Hfinal).
  exists segs, fs3. split; [exact Hrun|]. split; [reflexivity|].
  exact (Hfinal H6 H7).
Defined.

(** The same run, evaluated: with an echoing service and the bare
    placeholder as template, the final file holds the document. *)
Example pipeline_echo :
  let doc := lit "Hello world. Foo bar," in
  let fs : gmap str file := {[ lit "docs/book.txt" := TextFile doc ]} in
  (r1 ← Chunk.main Sample.path_stem fs (lit "docs/book.txt") 10;
   r2 ← Process.main Sample.echo Sample.keyed (lit "book_chunked.json")
          (lit "{text}") Sample.gpt (Process.World r1.2 0%nat []);
   r3 ← Rebuild.main Sample.path_stem (Process.fs r2.2)
          (lit "book_chunked.json") None;
   Some (r1.1, r2.1, r3.1.1, r3.1.2 !! lit "book_final.txt"))
  = Some (0, 0, 0, Some (TextFile doc)).
Proof. vm_compute. reflexivity. Qed.
